(** * csv_validator: the CSV tokenizer and the cleaning / validation pipeline

    A shallow embedding of [src/utils/csvParser.ts] (the version whose
    [validateAndCleanRow] takes a phone column index) and the properties
    of it that the specification states.

    JavaScript strings are modelled as lists of 8-bit characters, read as
    the code units U+0000..U+00FF.  Arrays are lists; the [number]s used as
    column indices are integers ([Z], with [-1] as the "no such column"
    sentinel); lengths are [nat]. *)

From Stdlib Require Import String Ascii List Bool Arith ZArith Lia.
From Stdlib Require DecimalString.
Import ListNotations.

(** ** Strings of the source language *)

Definition str := list ascii.

(** Literals are written [lit "..."]. *)
Definition lit (s : string) : str := list_ascii_of_string s.

Module Ch.
Definition quote : ascii := "034"%char.
Definition comma : ascii := ","%char.
Definition nl : ascii := "010"%char.
Definition cr : ascii := "013"%char.
Definition at_ : ascii := "@"%char.
Definition dot : ascii := "."%char.

Definition code (c : ascii) : nat := nat_of_ascii c.

(** [WhiteSpace] and [LineTerminator] of ECMAScript below U+0100: TAB, LF,
    VT, FF, CR, SP and NBSP.  This is what [String.prototype.trim] strips
    and what [\s] matches. *)
Definition isSpace (c : ascii) : bool :=
  let n := code c in
  ((9 <=? n) && (n <=? 13)) || (n =? 32) || (n =? 160).

(** What [.] of a regular expression refuses: LF and CR. *)
Definition isLineTerminator (c : ascii) : bool :=
  Ascii.eqb c nl || Ascii.eqb c cr.

(** [\d] *)
Definition isDigit (c : ascii) : bool :=
  let n := code c in (48 <=? n) && (n <=? 57).

(** [String.prototype.toLowerCase] on one code unit below U+0100: A-Z and
    the Latin-1 capitals U+00C0..U+00DE (but not the sign U+00D7). *)
Definition toLower (c : ascii) : ascii :=
  let n := code c in
  if ((65 <=? n) && (n <=? 90))
     || ((192 <=? n) && (n <=? 222) && negb (n =? 215))
  then ascii_of_nat (n + 32) else c.
End Ch.

Module Js.
Definition eqb (a b : str) : bool :=
  if list_eq_dec ascii_dec a b then true else false.

(** [s.length > 0], also the truthiness of a string *)
Definition nonEmpty (s : str) : bool :=
  match s with [] => false | _ :: _ => true end.

Fixpoint dropWhile (p : ascii -> bool) (s : str) : str :=
  match s with
  | [] => []
  | c :: r => if p c then dropWhile p r else s
  end.

Definition trimStart (s : str) : str := dropWhile Ch.isSpace s.
Definition trimEnd (s : str) : str := rev (dropWhile Ch.isSpace (rev s)).
Definition trim (s : str) : str := trimEnd (trimStart s).

Definition toLowerCase (s : str) : str := map Ch.toLower s.

(** [s.includes(c)], [s.startsWith(c)], [s.endsWith(c)] for a one-character
    argument *)
Definition includesChar (c : ascii) (s : str) : bool :=
  existsb (Ascii.eqb c) s.

Definition startsWithChar (c : ascii) (s : str) : bool :=
  match s with [] => false | d :: _ => Ascii.eqb d c end.

Definition endsWithChar (c : ascii) (s : str) : bool :=
  startsWithChar c (rev s).

(** [s.slice(1)], [s.slice(0, -1)], [s.slice(1, -1)] *)
Definition sliceFrom1 (s : str) : str := tl s.
Definition sliceTo_1 (s : str) : str := removelast s.
Definition slice1_1 (s : str) : str := removelast (tl s).

(** [s.split(c)]: never empty, [''.split(c)] is [['']]. *)
Fixpoint split (c : ascii) (s : str) : list str :=
  match s with
  | [] => [[]]
  | d :: r =>
      if Ascii.eqb d c then [] :: split c r
      else match split c r with
           | [] => [[d]]
           | f :: fs => (d :: f) :: fs
           end
  end.

(** [parts.join(sep)] *)
Fixpoint join (sep : str) (parts : list str) : str :=
  match parts with
  | [] => []
  | [p] => p
  | p :: ps => p ++ sep ++ join sep ps
  end.

Fixpoint isPrefix (p s : str) : bool :=
  match p, s with
  | [], _ => true
  | _ :: _, [] => false
  | a :: p', b :: s' => Ascii.eqb a b && isPrefix p' s'
  end.

(** [s.includes(sub)] *)
Fixpoint includes (sub s : str) : bool :=
  isPrefix sub s ||
  match s with
  | [] => false
  | _ :: r => includes sub r
  end.

(** [s.lastIndexOf(c)], [None] for [-1] *)
Fixpoint lastIndexOf (c : ascii) (s : str) : option nat :=
  match s with
  | [] => None
  | d :: r =>
      match lastIndexOf c r with
      | Some i => Some (S i)
      | None => if Ascii.eqb d c then Some 0 else None
      end
  end.

(** [s.substring(i)] and [s.substring(0, i)] for [0 <= i] *)
Definition substringFrom (i : nat) (s : str) : str := skipn i s.
Definition substringTo (i : nat) (s : str) : str := firstn i s.

(** [s.replace] of every double quote (global flag) by two of them *)
Definition doubleQuotes (s : str) : str :=
  flat_map (fun c => if Ascii.eqb c Ch.quote then [Ch.quote; Ch.quote] else [c]) s.

(** Decimal rendering of a number inside a template literal *)
Definition ofNat (n : nat) : str :=
  lit (DecimalString.NilEmpty.string_of_uint (Nat.to_uint n)).
End Js.

(** ** Regular expressions of the source, as backtracking matchers

    [plusThen cls k] is [cls+] followed by the continuation [k];
    [starThen cls k] is [cls*] followed by [k]; [searchFrom m] tries the
    unanchored pattern [m] at every position. *)
Module Re.
Fixpoint plusThen (cls : ascii -> bool) (k : str -> bool) (s : str) : bool :=
  match s with
  | [] => false
  | c :: r => cls c && (k r || plusThen cls k r)
  end.

Fixpoint starThen (cls : ascii -> bool) (k : str -> bool) (s : str) : bool :=
  k s ||
  match s with
  | [] => false
  | c :: r => cls c && starThen cls k r
  end.

Fixpoint searchFrom (m : str -> bool) (s : str) : bool :=
  m s ||
  match s with
  | [] => false
  | _ :: r => searchFrom m r
  end.

Definition charThen (c : ascii) (k : str -> bool) (s : str) : bool :=
  match s with
  | [] => false
  | d :: r => Ascii.eqb d c && k r
  end.

Definition atEnd (s : str) : bool := negb (Js.nonEmpty s).
Definition anywhere (_ : str) : bool := true.

Definition anyChar (c : ascii) : bool := negb (Ch.isLineTerminator c).
Definition notSpaceNorAt (c : ascii) : bool :=
  negb (Ch.isSpace c) && negb (Ascii.eqb c Ch.at_).
End Re.

(** ** The tokenizer: [parseCSV] *)

Record Scan := mkScan {
  currentRow : list str;
  currentField : str;
  inQuotes : bool
}.

Definition emptyScan : Scan := mkScan [] [] false.

(** The inner [for (j ...)] loop over the characters of one physical line.
    The look-ahead [line[j + 1]] is the head of the rest; [j++] in the
    escaped-quote branch skips it. *)
Fixpoint scanLine (line : str) (st : Scan) : Scan :=
  match line with
  | [] => st
  | char :: rest =>
      if Ascii.eqb char Ch.quote then
        match rest with
        | nextChar :: rest' =>
            if inQuotes st && Ascii.eqb nextChar Ch.quote
            then scanLine rest'
                   (mkScan (currentRow st) (currentField st ++ [Ch.quote]) (inQuotes st))
            else scanLine rest
                   (mkScan (currentRow st) (currentField st) (negb (inQuotes st)))
        | [] =>
            scanLine rest
              (mkScan (currentRow st) (currentField st) (negb (inQuotes st)))
        end
      else if Ascii.eqb char Ch.comma && negb (inQuotes st) then
        scanLine rest
          (mkScan (currentRow st ++ [Js.trim (currentField st)]) [] (inQuotes st))
      else
        scanLine rest
          (mkScan (currentRow st) (currentField st ++ [char]) (inQuotes st))
  end.

(** [currentRow.length > 0 && currentRow.some(field => field.length > 0)] *)
Definition keepRow (row : list str) : bool :=
  negb (Nat.eqb (length row) 0) && existsb Js.nonEmpty row.

(** [if (currentField || currentRow.length > 0) currentRow.push(currentField.trim())] *)
Definition pushPending (st : Scan) : list str :=
  if Js.nonEmpty (currentField st) || negb (Nat.eqb (length (currentRow st)) 0)
  then currentRow st ++ [Js.trim (currentField st)]
  else currentRow st.

Definition pushRow (rows : list (list str)) (row : list str) : list (list str) :=
  if keepRow row then rows ++ [row] else rows.

(** What happens after the characters of a physical line have been scanned. *)
Definition endOfLine (acc : list (list str) * Scan) : list (list str) * Scan :=
  let (rows, st) := acc in
  if negb (inQuotes st)
  then (pushRow rows (pushPending st), emptyScan)
  else (rows, mkScan (currentRow st) (currentField st ++ [Ch.nl]) (inQuotes st)).

Definition parseLines (lines : list str) (acc : list (list str) * Scan)
  : list (list str) * Scan :=
  fold_left (fun a line => endOfLine (fst a, scanLine line (snd a))) lines acc.

(** The flush after the last line. *)
Definition flush (acc : list (list str) * Scan) : list (list str) :=
  let (rows, st) := acc in
  if Js.nonEmpty (currentField st) || negb (Nat.eqb (length (currentRow st)) 0)
  then pushRow rows (currentRow st ++ [Js.trim (currentField st)])
  else rows.

Definition parseCSV (csvText : str) : list (list str) :=
  flush (parseLines (Js.split Ch.nl csvText) ([], emptyScan)).

(** ** FieldCleaner: [cleanField] *)

Definition cleanField (field : str) : str :=
  let trimmedField := Js.trim field in
  let trimmedField :=
    if Js.startsWithChar Ch.comma trimmedField
    then Js.trim (Js.sliceFrom1 trimmedField) else trimmedField in
  if Js.startsWithChar Ch.quote trimmedField
     && Js.endsWithChar Ch.quote trimmedField
     && (1 <? length trimmedField)
  then
    let unquotedContent := Js.slice1_1 trimmedField in
    if Js.endsWithChar Ch.comma unquotedContent
    then Js.sliceTo_1 unquotedContent
    else
      let needsQuotes :=
        Js.includesChar Ch.comma unquotedContent
        || Js.includesChar Ch.quote unquotedContent
        || Js.includesChar Ch.nl unquotedContent
        || Js.includesChar Ch.cr unquotedContent in
      if negb needsQuotes then unquotedContent else unquotedContent
  else
    if Js.endsWithChar Ch.comma trimmedField
    then Js.trim (Js.sliceTo_1 trimmedField)
    else trimmedField.

(** ** EmailNormalizer: [autoCorrectEmailDomain] *)

Definition validTLDs : list str :=
  map lit [".co"; ".io"; ".org"; ".net"; ".edu"; ".gov"; ".mil"; ".int";
           ".uk"; ".us"; ".ca"; ".au"; ".in"; ".de"; ".fr"; ".jp"; ".cn"]%string.

(** The object literal [typoCorrections], in the order of the source. *)
Definition typoCorrections : list (str * str) :=
  map (fun kv => (lit (fst kv), lit (snd kv)))
    [ (".con", ".com"); (".cmo", ".com"); (".comn", ".com"); (".comm", ".com");
      (".coom", ".com"); (".com,", ".com"); (".con,", ".com"); (".cmo,", ".com");
      (".or", ".org"); (".ogr", ".org"); (".net,", ".net"); (".ne", ".net") ]%string.

(** [table[key]]; [None] is [undefined].  Every key looked up starts with a
    dot, so no property inherited from [Object.prototype] can answer. *)
Fixpoint lookup (key : str) (table : list (str * str)) : option str :=
  match table with
  | [] => None
  | (k, v) :: rest => if Js.eqb k key then Some v else lookup key rest
  end.

(** [validTLDs.includes(x)] *)
Definition includesStr (x : str) (l : list str) : bool := existsb (Js.eqb x) l.

(** [if (correctedTLD)]: defined and not the empty string *)
Definition truthy (v : option str) : option str :=
  match v with
  | Some s => if Js.nonEmpty s then Some s else None
  | None => None
  end.

Definition autoCorrectEmailDomain (email : str) : str :=
  let trimmedEmail := Js.trim email in
  if negb (Js.includesChar Ch.at_ trimmedEmail) then trimmedEmail else
  match Js.split Ch.at_ trimmedEmail with
  | localPart :: domain :: _ =>
      if negb (Js.nonEmpty domain) then trimmedEmail else
      match Js.lastIndexOf Ch.dot domain with
      | None => trimmedEmail
      | Some lastDotIndex =>
          let tld := Js.substringFrom lastDotIndex domain in
          let baseDomain := Js.substringTo lastDotIndex domain in
          if includesStr (Js.toLowerCase tld) validTLDs then trimmedEmail else
          match truthy (lookup (Js.toLowerCase tld) typoCorrections) with
          | Some correctedTLD => localPart ++ [Ch.at_] ++ baseDomain ++ correctedTLD
          | None =>
              if Js.endsWithChar Ch.comma tld then
                let tldWithoutComma := Js.sliceTo_1 tld in
                match truthy (lookup (Js.toLowerCase tldWithoutComma) typoCorrections) with
                | Some correctedTLD => localPart ++ [Ch.at_] ++ baseDomain ++ correctedTLD
                | None => trimmedEmail
                end
              else trimmedEmail
          end
      end
  | _ => trimmedEmail  (* [domain] undefined *)
  end.

(** ** Validators *)

(** [/^[^\s@]+@[^\s@]+\.[^\s@]+$/] *)
Definition emailRegex : str -> bool :=
  Re.plusThen Re.notSpaceNorAt
    (Re.charThen Ch.at_
       (Re.plusThen Re.notSpaceNorAt
          (Re.charThen Ch.dot
             (Re.plusThen Re.notSpaceNorAt Re.atEnd)))).

Definition isValidEmail (email : str) : bool :=
  if negb (Js.nonEmpty email) || Nat.eqb (length (Js.trim email)) 0 then false else
  let trimmedEmail := Js.trim email in
  let atCount := count_occ ascii_dec trimmedEmail Ch.at_ in
  if negb (Nat.eqb atCount 1) then false else
  match Js.split Ch.at_ trimmedEmail with
  | localPart :: domain :: _ =>
      if negb (Js.nonEmpty localPart) || negb (Js.nonEmpty domain) then false else
      if negb (Js.includesChar Ch.dot domain) then false else
      if Js.startsWithChar Ch.dot domain || Js.endsWithChar Ch.dot domain then false else
      if negb (emailRegex trimmedEmail) then false else
      true
  | _ => false  (* [domain] undefined *)
  end.

(** The class [[\s\-\(\)\+\.]] *)
Definition isPhoneFormatting (c : ascii) : bool :=
  Ch.isSpace c
  || existsb (Ascii.eqb c) ["-"; "("; ")"; "+"; "."]%char.

Definition isValidPhoneNumber (phone : str) : bool :=
  if negb (Js.nonEmpty phone) || Nat.eqb (length (Js.trim phone)) 0 then false else
  let trimmedPhone := Js.trim phone in
  let digitsOnly := filter (fun c => negb (isPhoneFormatting c)) trimmedPhone in
  (* [/^\d+$/] *)
  if negb (Js.nonEmpty digitsOnly && forallb Ch.isDigit digitsOnly) then false else
  if (length digitsOnly <? 10) || (15 <? length digitsOnly) then false else
  true.

(** ** RowValidator: [validateAndCleanRow] *)

(** [arr[i] = v] for an index inside the array *)
Fixpoint setAt (i : nat) (v : str) (arr : list str) {struct arr} : list str :=
  match arr, i with
  | [], _ => []
  | _ :: r, O => v :: r
  | x :: r, S i' => x :: setAt i' v r
  end.

(** [0 <= i && i < arr.length] *)
Definition inRange (i : Z) (arr : list str) : bool :=
  ((0 <=? i) && (i <? Z.of_nat (length arr)))%Z.

(** The quote counter of the malformed-quote sweep: a quote directly
    followed by a quote is skipped together with it. *)
Fixpoint quoteCount (s : str) : nat :=
  match s with
  | [] => 0
  | c :: rest =>
      if Ascii.eqb c Ch.quote then
        match rest with
        | n :: rest' =>
            if Ascii.eqb n Ch.quote then quoteCount rest' else S (quoteCount rest)
        | [] => S (quoteCount rest)
        end
      else quoteCount rest
  end.

(** The pattern: start, comma, any run without line terminators, a quote *)
Definition commaThenQuote : str -> bool :=
  Re.charThen Ch.comma
    (Re.starThen Re.anyChar (Re.charThen Ch.quote Re.anywhere)).

(** The pattern, unanchored: a quote, any run without line terminators, a comma *)
Definition quoteThenComma : str -> bool :=
  Re.searchFrom
    (Re.charThen Ch.quote
       (Re.starThen Re.anyChar (Re.charThen Ch.comma Re.anywhere))).

(** One iteration of the sweep; [true] when the field does not make the
    row rejected. *)
Definition fieldPassesSweep (field : str) : bool :=
  let trimmedField := Js.trim field in
  let n := quoteCount trimmedField in
  if (0 <? n) && negb (Nat.eqb (n mod 2) 0) then false else
  if commaThenQuote trimmedField || quoteThenComma trimmedField then false else
  true.

(** [None] is the [null] of a rejected row. *)
Definition validateAndCleanRow (row : list str) (expectedColumns : nat)
    (emailColumnIndex phoneColumnIndex : Z) : option (list str) :=
  if negb (Nat.eqb (length row) expectedColumns) then None else
  let cleanedRow := map cleanField row in
  let afterEmail : option (list str) :=
    if inRange emailColumnIndex cleanedRow then
      let i := Z.to_nat emailColumnIndex in
      let email := autoCorrectEmailDomain (nth i cleanedRow []) in
      let cleanedRow := setAt i email cleanedRow in
      if negb (isValidEmail email) then None else Some cleanedRow
    else Some cleanedRow in
  match afterEmail with
  | None => None
  | Some cleanedRow =>
      let cleanedRow :=
        if inRange phoneColumnIndex cleanedRow then
          let i := Z.to_nat phoneColumnIndex in
          let phone := nth i cleanedRow [] in
          if Js.nonEmpty phone
             && (0 <? length (Js.trim phone))
             && negb (isValidPhoneNumber phone)
          then setAt i [] cleanedRow
          else cleanedRow
        else cleanedRow in
      if forallb fieldPassesSweep cleanedRow then Some cleanedRow else None
  end.

(** ** Serializer: [arrayToCSV] *)

Definition serializeField (field : str) : str :=
  if Js.includesChar Ch.comma field
     || Js.includesChar Ch.quote field
     || Js.includesChar Ch.nl field
  then [Ch.quote] ++ Js.doubleQuotes field ++ [Ch.quote]
  else field.

Definition arrayToCSV (rows : list (list str)) : str :=
  Js.join [Ch.nl] (map (fun row => Js.join [Ch.comma] (map serializeField row)) rows).

(** ** Pipeline: [validateAndCleanCSV] *)

Record ParseResult := mkResult {
  validRows : list (list str);
  invalidRowCount : nat
}.

(** How a call ends: it returns, it throws the [Error] built in the
    function with the given message, or the runtime throws a [TypeError]
    for reading a property of [undefined]. *)
Inductive Outcome : Type :=
| Returned (r : ParseResult)
| ThrownError (message : str)
| ThrownTypeError.

Definition countMismatchMessage (expected actual : nat) : str :=
  lit "Column count mismatch. Expected " ++ Js.ofNat expected
  ++ lit " columns, but CSV has " ++ Js.ofNat actual ++ lit " columns.".

Definition nameMismatchMessage (position : nat) (expected found : str) : str :=
  lit "Column name mismatch at position " ++ Js.ofNat position
  ++ lit ". Expected " ++ [Ch.quote] ++ expected ++ [Ch.quote]
  ++ lit ", but found " ++ [Ch.quote] ++ found ++ [Ch.quote] ++ lit ".".

(** The header-name loop, started at index [i]; it runs once both arrays
    are known to have the same length and walks them together.  [Some] is
    the message of the error thrown at the first mismatch. *)
Fixpoint checkHeaderNames (i : nat) (headers expectedColumns : list str)
  : option str :=
  match headers, expectedColumns with
  | h :: hs, e :: es =>
      if Js.eqb (Js.trim (Js.toLowerCase h)) (Js.trim (Js.toLowerCase e))
      then checkHeaderNames (S i) hs es
      else Some (nameMismatchMessage (i + 1) e h)
  | _, _ => None
  end.

(** The two index searches: first [i] whose lower-cased name satisfies
    [p], or [-1]. *)
Fixpoint findColumnIndex (p : str -> bool) (i : Z) (expectedColumns : list str) : Z :=
  match expectedColumns with
  | [] => (-1)%Z
  | c :: rest =>
      if p (Js.toLowerCase c) then i else findColumnIndex p (i + 1)%Z rest
  end.

Definition isEmailName (colName : str) : bool := Js.includes (lit "email") colName.

Definition isPhoneName (colName : str) : bool :=
  Js.includes (lit "phone") colName
  || Js.includes (lit "mobile") colName
  || Js.includes (lit "contact") colName.

(** The loop over the data rows [rows[1..]]. *)
Definition processRows (width : nat) (emailColumnIndex phoneColumnIndex : Z)
    (dataRows : list (list str)) (acc : ParseResult) : ParseResult :=
  fold_left
    (fun acc parsedRow =>
       match validateAndCleanRow parsedRow width emailColumnIndex phoneColumnIndex with
       | Some cleanedRow => mkResult (validRows acc ++ [cleanedRow]) (invalidRowCount acc)
       | None => mkResult (validRows acc) (S (invalidRowCount acc))
       end)
    dataRows acc.

(** [csvText.split(newline).filter(line => line.trim().length > 0)] *)
Definition nonBlankLines (csvText : str) : list str :=
  filter (fun line => 0 <? length (Js.trim line)) (Js.split Ch.nl csvText).

Definition validateAndCleanCSV (csvText : str) (expectedColumns : list str) : Outcome :=
  let lines := nonBlankLines csvText in
  if Nat.eqb (length lines) 0 then Returned (mkResult [] 0) else
  let rows := parseCSV csvText in
  match rows with
  | [] => ThrownTypeError  (* [headers] is [undefined], [headers.length] throws *)
  | headers :: dataRows =>
      if negb (Nat.eqb (length headers) (length expectedColumns)) then
        ThrownError (countMismatchMessage (length expectedColumns) (length headers))
      else
        match checkHeaderNames 0 headers expectedColumns with
        | Some message => ThrownError message
        | None =>
            let emailColumnIndex := findColumnIndex isEmailName 0%Z expectedColumns in
            let phoneColumnIndex := findColumnIndex isPhoneName 0%Z expectedColumns in
            let cleanedHeaders := map cleanField headers in
            Returned
              (processRows (length expectedColumns) emailColumnIndex phoneColumnIndex
                 dataRows (mkResult [cleanedHeaders] 0))
        end
  end.

(** ** Vocabulary of the specification *)

(** A blank input: no physical line has a character that is not white
    space. *)
Definition blank (csvText : str) : bool :=
  forallb (forallb Ch.isSpace) (Js.split Ch.nl csvText).

(** The row as [validateAndCleanRow] holds it when it reaches the phone
    step: every field cleaned, and the email field, when the index points
    into the row, replaced by its normalisation. *)
Definition rowBeforePhone (row : list str) (emailColumnIndex : Z) : list str :=
  let cleanedRow := map cleanField row in
  if inRange emailColumnIndex cleanedRow
  then setAt (Z.to_nat emailColumnIndex)
         (autoCorrectEmailDomain (nth (Z.to_nat emailColumnIndex) cleanedRow []))
         cleanedRow
  else cleanedRow.

(** The phone step of [validateAndCleanRow] on the row that reaches it. *)
Definition phoneStep (cleanedRow : list str) (phoneColumnIndex : Z) : list str :=
  if inRange phoneColumnIndex cleanedRow then
    let i := Z.to_nat phoneColumnIndex in
    let phone := nth i cleanedRow [] in
    if Js.nonEmpty phone && (0 <? length (Js.trim phone)) && negb (isValidPhoneNumber phone)
    then setAt i [] cleanedRow
    else cleanedRow
  else cleanedRow.

(** The invariant of the row accumulator of [parseCSV]. *)
Definition kept (rows : list (list str)) : Prop :=
  Forall (fun row => keepRow row = true) rows.

(** The comma-separated pieces of a physical line. *)
Definition piecesOf (line : str) : list str := Js.split Ch.comma line.

(** A field that is already clean and carries no quote. *)
Definition cleanUnquoted (field : str) : Prop :=
  cleanField field = field /\ ~ In Ch.quote field.

(** A row-preserving input of clean, unquoted fields: every physical line
    has a non-empty field, so that the tokenizer drops none, and every
    field is clean and unquoted. *)
Definition rowPreservingClean (csvText : str) : Prop :=
  Forall (fun line =>
            Exists (fun field => field <> []) (piecesOf line)
            /\ Forall cleanUnquoted (piecesOf line))
         (Js.split Ch.nl csvText).

(** A field on which none of the repairs of [cleanField] fires: trimmed,
    it neither starts nor ends with a comma and is not wrapped in quotes. *)
Definition needsNoRepair (field : str) : Prop :=
  let t := Js.trim field in
  Js.startsWithChar Ch.comma t = false
  /\ Js.endsWithChar Ch.comma t = false
  /\ (Js.startsWithChar Ch.quote t && Js.endsWithChar Ch.quote t
      && (1 <? length t)) = false.

(** ** Vocabulary of the further properties *)

(** A row whose fields carry no white space at either end. *)
Definition trimmedRow (row : list str) : Prop :=
  Forall (fun field => Js.trim field = field) row.

(** The tokenizer read as one pass over the characters of the whole text:
    a line feed is where [parseCSV] ends a physical line, every other
    character is handled as in [scanLine].  [parseLines_scanText] shows
    that this is the loop over the lines of the source. *)
Fixpoint scanText (text : str) (acc : list (list str) * Scan) {struct text}
  : list (list str) * Scan :=
  match text with
  | [] => acc
  | char :: rest =>
      let st := snd acc in
      if Ascii.eqb char Ch.nl then scanText rest (endOfLine acc)
      else if Ascii.eqb char Ch.quote then
        match rest with
        | nextChar :: rest' =>
            if inQuotes st && Ascii.eqb nextChar Ch.quote
            then scanText rest'
                   (fst acc,
                    mkScan (currentRow st) (currentField st ++ [Ch.quote]) (inQuotes st))
            else scanText rest
                   (fst acc,
                    mkScan (currentRow st) (currentField st) (negb (inQuotes st)))
        | [] =>
            scanText rest
              (fst acc, mkScan (currentRow st) (currentField st) (negb (inQuotes st)))
        end
      else if Ascii.eqb char Ch.comma && negb (inQuotes st) then
        scanText rest
          (fst acc, mkScan (currentRow st ++ [Js.trim (currentField st)]) [] (inQuotes st))
      else
        scanText rest
          (fst acc, mkScan (currentRow st) (currentField st ++ [char]) (inQuotes st))
  end.

(** Rows that [arrayToCSV] writes and [parseCSV] reads back unchanged:
    each has a non-empty field and only trimmed fields. *)
Definition readableRows (rows : list (list str)) : Prop :=
  Forall (fun row => keepRow row = true /\ trimmedRow row) rows.

(** The text of one row in [arrayToCSV]. *)
Definition rowText (row : list str) : str :=
  Js.join [Ch.comma] (map serializeField row).

(** What [cleanField] may take away: white space, commas and quotes. *)
Definition strippable (c : ascii) : Prop :=
  Ch.isSpace c = true \/ c = Ch.comma \/ c = Ch.quote.

(** [t] is [s] without some strippable characters at its two ends. *)
Definition strippedFrom (s t : str) : Prop :=
  exists before after,
    s = before ++ t ++ after /\ Forall strippable before /\ Forall strippable after.

(** The data rows that [validateAndCleanRow] accepts, cleaned, in the order
    of the input, and the number of those it rejects. *)
Definition acceptedRows (width : nat) (emailColumnIndex phoneColumnIndex : Z)
    (dataRows : list (list str)) : list (list str) :=
  flat_map
    (fun row =>
       match validateAndCleanRow row width emailColumnIndex phoneColumnIndex with
       | Some cleanedRow => [cleanedRow]
       | None => []
       end)
    dataRows.

Definition rejectedCount (width : nat) (emailColumnIndex phoneColumnIndex : Z)
    (dataRows : list (list str)) : nat :=
  length
    (filter
       (fun row =>
          match validateAndCleanRow row width emailColumnIndex phoneColumnIndex with
          | Some _ => false
          | None => true
          end)
       dataRows).

(** A column name as the header check compares it: lower case, trimmed. *)
Definition normalizedName (name : str) : str := Js.trim (Js.toLowerCase name).

(** ** The caller: the handlers of [App]

    The state of the component, the [useState] cells, as one record; each
    handler is the state after its [set...] calls.  [csvFile] keeps the
    name of the selected file. *)
Record AppState := mkApp {
  columns : list str;
  columnInput : str;
  csvFile : option str;
  csvText : str;
  processedCSV : str;
  error : str;
  success : str;
  invalidCount : nat;
  isProcessing : bool
}.

(** [useState] initial values *)
Definition initialApp : AppState := mkApp [] [] None [] [] [] [] 0 false.

(** The [onChange] of the column input: [setColumnInput(e.target.value)] *)
Definition changeColumnInput (value : str) (st : AppState) : AppState :=
  mkApp (columns st) value (csvFile st) (csvText st) (processedCSV st)
        (error st) (success st) (invalidCount st) (isProcessing st).

Definition handleAddColumn (st : AppState) : AppState :=
  let trimmed := Js.trim (columnInput st) in
  if Js.nonEmpty trimmed && negb (includesStr trimmed (columns st))
  then mkApp (columns st ++ [trimmed]) [] (csvFile st) (csvText st) (processedCSV st)
             [] (success st) (invalidCount st) (isProcessing st)
  else st.

(** [columns.filter((_col, i) => i !== index)] *)
Fixpoint removeAt (index : nat) (cols : list str) {struct cols} : list str :=
  match cols with
  | [] => []
  | c :: rest =>
      match index with
      | O => rest
      | S index' => c :: removeAt index' rest
      end
  end.

Definition handleRemoveColumn (index : nat) (st : AppState) : AppState :=
  mkApp (removeAt index (columns st)) (columnInput st) (csvFile st) (csvText st)
        (processedCSV st) (error st) (success st) (invalidCount st) (isProcessing st).

(** [name.toLowerCase().endsWith('.csv')] *)
Definition isCsvName (name : str) : bool :=
  Js.isPrefix (rev (lit ".csv")) (rev (Js.toLowerCase name)).

Definition handleFileSelect (name : str) (st : AppState) : AppState :=
  if negb (isCsvName name)
  then mkApp (columns st) (columnInput st) (csvFile st) (csvText st) (processedCSV st)
             (lit "Please upload a CSV file only.") (success st) (invalidCount st)
             (isProcessing st)
  else mkApp (columns st) (columnInput st) (Some name) (csvText st) []
             [] [] 0 (isProcessing st).

(** The [onload] of the file reader: [setCsvText(text)] *)
Definition fileLoaded (text : str) (st : AppState) : AppState :=
  mkApp (columns st) (columnInput st) (csvFile st) text (processedCSV st)
        (error st) (success st) (invalidCount st) (isProcessing st).

Definition successMessage (invalidRowCount : nat) : str :=
  if 0 <? invalidRowCount
  then lit "CSV processed successfully! Removed " ++ Js.ofNat invalidRowCount
       ++ lit " invalid " ++ (if invalidRowCount =? 1 then lit "row" else lit "rows")
       ++ lit "."
  else lit "CSV processed successfully! No invalid rows found.".

(** [handleProcessCSV].  The message of the [TypeError] that the runtime
    raises is not fixed by the source; it is the parameter
    [typeErrorMessage]. *)
Definition handleProcessCSV (typeErrorMessage : str) (st : AppState) : AppState :=
  if length (columns st) =? 0 then
    mkApp (columns st) (columnInput st) (csvFile st) (csvText st) (processedCSV st)
          (lit "Please add at least one column name.") (success st) (invalidCount st)
          (isProcessing st)
  else if match csvFile st with None => true | Some _ => false end
          || negb (Js.nonEmpty (csvText st)) then
    mkApp (columns st) (columnInput st) (csvFile st) (csvText st) (processedCSV st)
          (lit "Please upload a CSV file first.") (success st) (invalidCount st)
          (isProcessing st)
  else
    match validateAndCleanCSV (csvText st) (columns st) with
    | Returned result =>
        mkApp (columns st) (columnInput st) (csvFile st) (csvText st)
              (arrayToCSV (validRows result))
              [] (successMessage (invalidRowCount result)) (invalidRowCount result) false
    | ThrownError message =>
        mkApp (columns st) (columnInput st) (csvFile st) (csvText st) (processedCSV st)
              message [] (invalidCount st) false
    | ThrownTypeError =>
        mkApp (columns st) (columnInput st) (csvFile st) (csvText st) (processedCSV st)
              typeErrorMessage [] (invalidCount st) false
    end.

(** [handleDownload]: nothing without a processed text, else the name
    under which the processed text is offered. *)
Definition handleDownload (st : AppState) : option (str * str) :=
  if negb (Js.nonEmpty (processedCSV st)) then None
  else Some (match csvFile st with
             | Some name => lit "cleaned_" ++ name
             | None => lit "cleaned_csv.csv"
             end,
             processedCSV st).

(** What the user can do to the component. *)
Inductive AppEvent : Type :=
| TypeColumn (value : str)
| AddColumn
| RemoveColumn (index : nat)
| SelectFile (name : str)
| FileLoaded (text : str)
| ProcessCSV.

Definition appStep (typeErrorMessage : str) (st : AppState) (ev : AppEvent) : AppState :=
  match ev with
  | TypeColumn value => changeColumnInput value st
  | AddColumn => handleAddColumn st
  | RemoveColumn index => handleRemoveColumn index st
  | SelectFile name => handleFileSelect name st
  | FileLoaded text => fileLoaded text st
  | ProcessCSV => handleProcessCSV typeErrorMessage st
  end.

Definition runApp (typeErrorMessage : str) (events : list AppEvent) : AppState :=
  fold_left (appStep typeErrorMessage) events initialApp.

(** The column list that the handlers maintain: no name twice, no name
    empty or with white space around it. *)
Definition columnsWellFormed (cols : list str) : Prop :=
  NoDup cols /\ Forall (fun c => c <> [] /\ Js.trim c = c) cols.

(** ** The functions on the inputs the specification names *)

Definition csvOf (lines : list string) : str := Js.join [Ch.nl] (map lit lines).

Example parse_two_rows :
  parseCSV (csvOf ["a, b"; ""; "c,d"]%string)
  = [[lit "a"; lit "b"]; [lit "c"; lit "d"]].
Proof. reflexivity. Qed.

Example parse_multiline_quoted :
  parseCSV ([Ch.quote] ++ lit "line1" ++ [Ch.nl] ++ lit "line2" ++ [Ch.quote] ++ lit ",ok")
  = [[lit "line1" ++ [Ch.nl] ++ lit "line2"; lit "ok"]].
Proof. reflexivity. Qed.

Example phone_ok : isValidPhoneNumber (lit "+1 (415) 555-2671") = true.
Proof. reflexivity. Qed.

Example phone_short : isValidPhoneNumber (lit "12345") = false.
Proof. reflexivity. Qed.

(** ** Facts about the string primitives *)

Section StringFacts.

Lemma includesChar_false (c : ascii) (s : str) :
  Js.includesChar c s = false <-> ~ In c s.
Proof.
  unfold Js.includesChar. split.
  - intros H Hin.
    assert (existsb (Ascii.eqb c) s = true) as E.
    { apply existsb_exists. exists c. split; [exact Hin | apply Ascii.eqb_refl]. }
    congruence.
  - intros H. destruct (existsb (Ascii.eqb c) s) eqn:E; [ | reflexivity].
    apply existsb_exists in E. destruct E as [x [Hx Hc]].
    apply Ascii.eqb_eq in Hc. subst x. contradiction.
Qed.

Lemma dropWhile_idem (p : ascii -> bool) (s : str) :
  Js.dropWhile p (Js.dropWhile p s) = Js.dropWhile p s.
Proof.
  induction s as [ | c r IH]; simpl; [reflexivity | ].
  destruct (p c) eqn:E; [exact IH | ].
  simpl. rewrite E. reflexivity.
Qed.

Lemma dropWhile_snoc (p : ascii -> bool) (l : str) (c : ascii) :
  p c = false -> Js.dropWhile p (l ++ [c]) = Js.dropWhile p l ++ [c].
Proof.
  intros Hc. induction l as [ | d r IH]; simpl.
  - rewrite Hc. reflexivity.
  - destruct (p d); [exact IH | reflexivity].
Qed.

Lemma dropWhile_all (p : ascii -> bool) (s : str) :
  forallb p s = true -> Js.dropWhile p s = [].
Proof.
  induction s as [ | c r IH]; simpl; [reflexivity | ].
  intros H. apply andb_true_iff in H. destruct H as [Hc Hr].
  rewrite Hc. auto.
Qed.

Lemma dropWhile_nil (p : ascii -> bool) (s : str) :
  Js.dropWhile p s = [] -> forallb p s = true.
Proof.
  induction s as [ | c r IH]; simpl; [reflexivity | ].
  destruct (p c); simpl; [exact IH | discriminate].
Qed.

Lemma dropWhile_head (p : ascii -> bool) (s : str) (c : ascii) (r : str) :
  Js.dropWhile p s = c :: r -> p c = false.
Proof.
  induction s as [ | d t IH]; simpl; [discriminate | ].
  destruct (p d) eqn:E; [exact IH | ].
  intros H. injection H as -> _. exact E.
Qed.

Lemma dropWhile_incl (p : ascii -> bool) (s : str) (x : ascii) :
  In x (Js.dropWhile p s) -> In x s.
Proof.
  induction s as [ | d t IH]; simpl; [tauto | ].
  destruct (p d); [auto | simpl; tauto].
Qed.

Lemma trimEnd_cons (c : ascii) (r : str) :
  Ch.isSpace c = false -> Js.trimEnd (c :: r) = c :: Js.trimEnd r.
Proof.
  intros Hc. unfold Js.trimEnd. simpl rev.
  rewrite dropWhile_snoc by exact Hc.
  rewrite rev_app_distr. reflexivity.
Qed.

Lemma trimEnd_idem (s : str) : Js.trimEnd (Js.trimEnd s) = Js.trimEnd s.
Proof.
  unfold Js.trimEnd. rewrite rev_involutive, dropWhile_idem. reflexivity.
Qed.

(** A string already trimmed at its start stays so under [trimEnd]. *)
Lemma trimStart_trimEnd (s : str) :
  Js.trimStart s = s -> Js.trimStart (Js.trimEnd s) = Js.trimEnd s.
Proof.
  intros Hs. destruct s as [ | c r]; [reflexivity | ].
  assert (Ch.isSpace c = false) as Hc.
  { unfold Js.trimStart in Hs. eapply dropWhile_head. exact Hs. }
  rewrite trimEnd_cons by exact Hc.
  unfold Js.trimStart. simpl. rewrite Hc. reflexivity.
Qed.

Lemma trim_idempotent (s : str) : Js.trim (Js.trim s) = Js.trim s.
Proof.
  unfold Js.trim.
  rewrite trimStart_trimEnd by apply dropWhile_idem.
  apply trimEnd_idem.
Qed.

Lemma trim_all_space (s : str) : forallb Ch.isSpace s = true -> Js.trim s = [].
Proof.
  intros H. unfold Js.trim, Js.trimStart.
  rewrite dropWhile_all by exact H. reflexivity.
Qed.

Lemma trim_nil (s : str) : Js.trim s = [] -> forallb Ch.isSpace s = true.
Proof.
  unfold Js.trim. intros H.
  apply dropWhile_nil. fold (Js.trimStart s).
  destruct (Js.trimStart s) as [ | c r] eqn:E; [reflexivity | ].
  rewrite trimEnd_cons in H; [discriminate | ].
  eapply dropWhile_head. exact E.
Qed.

Lemma trim_incl (s : str) (x : ascii) : In x (Js.trim s) -> In x s.
Proof.
  unfold Js.trim, Js.trimEnd, Js.trimStart. intros H.
  apply in_rev in H. apply dropWhile_incl in H. apply in_rev in H.
  eapply dropWhile_incl. exact H.
Qed.

Lemma startsWithChar_In (c : ascii) (s : str) :
  Js.startsWithChar c s = true -> In c s.
Proof.
  destruct s as [ | d r]; simpl; [discriminate | ].
  intros H. apply Ascii.eqb_eq in H. left. exact H.
Qed.

Lemma endsWithChar_In (c : ascii) (s : str) :
  Js.endsWithChar c s = true -> In c s.
Proof.
  unfold Js.endsWithChar. intros H. apply in_rev. apply startsWithChar_In. exact H.
Qed.

Lemma startsWithChar_absent (c : ascii) (s : str) :
  ~ In c s -> Js.startsWithChar c s = false.
Proof.
  intros H. destruct (Js.startsWithChar c s) eqn:E; [ | reflexivity].
  apply startsWithChar_In in E. contradiction.
Qed.

Lemma endsWithChar_absent (c : ascii) (s : str) :
  ~ In c s -> Js.endsWithChar c s = false.
Proof.
  intros H. destruct (Js.endsWithChar c s) eqn:E; [ | reflexivity].
  apply endsWithChar_In in E. contradiction.
Qed.

End StringFacts.

(** ** FieldCleaner *)

Lemma cleanField_without_repair (field : str) :
  needsNoRepair field -> cleanField field = Js.trim field.
Proof.
  intros (Hstart & Hend & Hwrap). unfold cleanField.
  rewrite Hstart. cbv zeta. rewrite Hwrap, Hend. reflexivity.
Qed.

Lemma needsNoRepair_trim (field : str) :
  needsNoRepair field -> needsNoRepair (Js.trim field).
Proof.
  unfold needsNoRepair. rewrite trim_idempotent. tauto.
Qed.

Lemma needsNoRepair_plain (field : str) :
  ~ In Ch.comma field -> ~ In Ch.quote field -> needsNoRepair field.
Proof.
  intros Hc Hq. unfold needsNoRepair. cbv zeta.
  assert (~ In Ch.comma (Js.trim field)) as Hc' by (intros H; apply Hc, trim_incl, H).
  assert (~ In Ch.quote (Js.trim field)) as Hq' by (intros H; apply Hq, trim_incl, H).
  rewrite (startsWithChar_absent _ _ Hc'), (endsWithChar_absent _ _ Hc'),
    (startsWithChar_absent _ _ Hq').
  auto.
Qed.

(** C3 (as stated) fails: one pass strips one stray comma only.  Cleaning
    the field [,,a] gives [,a], and cleaning that gives [a]. *)
Lemma cleanField_not_idempotent :
  ~ (forall field, cleanField (cleanField field) = cleanField field).
Proof.
  intros H. specialize (H (lit ",,a")).
  change (cleanField (lit ",,a")) with (lit ",a") in H.
  change (cleanField (lit ",a")) with (lit "a") in H.
  discriminate H.
Qed.

(** ** EmailNormalizer *)

(** C6: the typo table turns the suffix [.con] into [.com], so [a@b.con]
    becomes [a@b.com]; [.io] is on the allow-list and [a@b.io] comes back
    unchanged. *)
Theorem autoCorrectEmailDomain_examples :
  autoCorrectEmailDomain (lit "a@b.con") = lit "a@b.com"
  /\ lookup (lit ".con") typoCorrections = Some (lit ".com")
  /\ includesStr (lit ".con") validTLDs = false
  /\ autoCorrectEmailDomain (lit "a@b.io") = lit "a@b.io"
  /\ includesStr (lit ".io") validTLDs = true.
Proof. repeat split; reflexivity. Qed.

(** ** Pipeline on concrete inputs *)

(** C5: with the expected columns [name; email], the three-line text of
    the specification yields the header and the one row [Ada; ada@x.com],
    and one rejected row. *)
Theorem validateAndCleanCSV_example :
  validateAndCleanCSV
    (lit "name,email" ++ [Ch.nl] ++ lit "Ada,ada@x.con" ++ [Ch.nl]
     ++ lit "Bob,not-an-email" ++ [Ch.nl])
    [lit "name"; lit "email"]
  = Returned (mkResult [[lit "name"; lit "email"]; [lit "Ada"; lit "ada@x.com"]] 1).
Proof. vm_compute. reflexivity. Qed.

(** C2 (failing input): on the text made of one comma the blank-input
    check passes, the tokenizer drops the only row because both of its
    fields are empty, and reading the header of the empty row list ends
    the call with a [TypeError]: neither a result nor the error of the
    header validation. *)
Theorem validateAndCleanCSV_missing_header :
  nonBlankLines (lit ",") = [lit ","]
  /\ parseCSV (lit ",") = []
  /\ validateAndCleanCSV (lit ",") [lit "a"] = ThrownTypeError.
Proof. repeat split; reflexivity. Qed.

(** ** Tokenizer *)

Section SplitFacts.
Variable sep : ascii.

Lemma split_not_nil (s : str) : Js.split sep s <> [].
Proof.
  destruct s as [ | d r]; simpl; [discriminate | ].
  destruct (Ascii.eqb d sep); [discriminate | ].
  destruct (Js.split sep r); discriminate.
Qed.

(** The pieces hold characters of the string, and never the separator. *)
Lemma split_incl (s piece : str) (x : ascii) :
  In piece (Js.split sep s) -> In x piece -> In x s.
Proof.
  revert piece. induction s as [ | d r IH]; intros piece Hp Hx.
  - simpl in Hp. destruct Hp as [<- | []]. exact Hx.
  - simpl in Hp. destruct (Ascii.eqb d sep).
    + destruct Hp as [<- | Hp]; [destruct Hx | ]. right. eapply IH; eassumption.
    + destruct (Js.split sep r) as [ | f fs] eqn:E.
      * destruct Hp as [<- | []]. destruct Hx as [<- | []]. left. reflexivity.
      * destruct Hp as [<- | Hp].
        -- destruct Hx as [<- | Hx]; [left; reflexivity | ].
           right. apply (IH f); [left; reflexivity | exact Hx].
        -- right. apply (IH piece); [right; exact Hp | exact Hx].
Qed.

Lemma split_no_sep (s piece : str) :
  In piece (Js.split sep s) -> ~ In sep piece.
Proof.
  revert piece. induction s as [ | d r IH]; intros piece Hp Hx.
  - simpl in Hp. destruct Hp as [<- | []]. destruct Hx.
  - simpl in Hp. destruct (Ascii.eqb d sep) eqn:Ed.
    + destruct Hp as [<- | Hp]; [destruct Hx | ]. exact (IH _ Hp Hx).
    + destruct (Js.split sep r) as [ | f fs] eqn:E.
      * destruct Hp as [<- | []]. destruct Hx as [<- | []].
        rewrite Ascii.eqb_refl in Ed. discriminate.
      * destruct Hp as [<- | Hp].
        -- destruct Hx as [<- | Hx].
           ++ rewrite Ascii.eqb_refl in Ed. discriminate.
           ++ apply (IH f); [left; reflexivity | exact Hx].
        -- apply (IH piece); [right; exact Hp | exact Hx].
Qed.

(** [split] then [join] with the same separator gives the string back. *)
Lemma join_split (s : str) : Js.join [sep] (Js.split sep s) = s.
Proof.
  induction s as [ | d r IH]; [reflexivity | ].
  simpl Js.split. destruct (Ascii.eqb d sep) eqn:Ed.
  - apply Ascii.eqb_eq in Ed. subst d.
    pose proof (split_not_nil r) as Hne.
    destruct (Js.split sep r) as [ | f fs]; [contradiction | ].
    change (Js.join [sep] ([] :: f :: fs)) with ([] ++ [sep] ++ Js.join [sep] (f :: fs)).
    rewrite IH. reflexivity.
  - pose proof (split_not_nil r) as Hne.
    destruct (Js.split sep r) as [ | f fs]; [contradiction | ].
    destruct fs as [ | g gs].
    + simpl in *. rewrite IH. reflexivity.
    + change (Js.join [sep] ((d :: f) :: g :: gs))
        with (d :: (f ++ [sep] ++ Js.join [sep] (g :: gs))).
      change (Js.join [sep] (f :: g :: gs))
        with (f ++ [sep] ++ Js.join [sep] (g :: gs)) in IH.
      rewrite IH. reflexivity.
Qed.
End SplitFacts.

Lemma keepRow_nil : keepRow [] = false.
Proof. reflexivity. Qed.

Lemma keepRow_field (row : list str) :
  keepRow row = true -> Exists (fun field => field <> []) row.
Proof.
  unfold keepRow. intros H. apply andb_true_iff in H. destruct H as [_ H].
  apply existsb_exists in H. destruct H as [f [Hin Hf]].
  apply Exists_exists. exists f. split; [exact Hin | ].
  destruct f; [discriminate | discriminate].
Qed.

Lemma field_keepRow (row : list str) :
  Exists (fun field => field <> []) row -> keepRow row = true.
Proof.
  intros H. apply Exists_exists in H. destruct H as [f [Hin Hf]].
  unfold keepRow. apply andb_true_iff. split.
  - destruct row; [destruct Hin | reflexivity].
  - apply existsb_exists. exists f. split; [exact Hin | ].
    destruct f; [contradiction | reflexivity].
Qed.

Lemma pushRow_app (rows : list (list str)) (row : list str) :
  pushRow rows row = rows ++ (if keepRow row then [row] else []).
Proof.
  unfold pushRow. destruct (keepRow row); [reflexivity | symmetry; apply app_nil_r].
Qed.

(** The guard before the last [push] of a line changes nothing for the
    outcome: when it is false the row would be a single empty field, which
    is dropped like the empty row. *)
Lemma pushRow_pushPending (rows : list (list str)) (st : Scan) :
  pushRow rows (pushPending st)
  = pushRow rows (currentRow st ++ [Js.trim (currentField st)]).
Proof.
  unfold pushPending.
  destruct (currentField st) as [ | c f]; [ | reflexivity].
  destruct (currentRow st) as [ | r rs]; reflexivity.
Qed.

Section RowsInvariant.

Lemma pushRow_kept rows row : kept rows -> kept (pushRow rows row).
Proof.
  intros H. unfold pushRow. destruct (keepRow row) eqn:E; [ | exact H].
  apply Forall_app. split; [exact H | ]. constructor; [exact E | constructor].
Qed.

Lemma endOfLine_kept acc : kept (fst acc) -> kept (fst (endOfLine acc)).
Proof.
  destruct acc as [rows st]. simpl. intros H.
  destruct (inQuotes st); simpl; [exact H | apply pushRow_kept; exact H].
Qed.

Lemma parseLines_kept lines acc :
  kept (fst acc) -> kept (fst (parseLines lines acc)).
Proof.
  revert acc. induction lines as [ | line rest IH]; intros acc H; [exact H | ].
  unfold parseLines. simpl. apply IH.
  apply (endOfLine_kept (fst acc, scanLine line (snd acc))). exact H.
Qed.

Lemma flush_kept acc : kept (fst acc) -> kept (flush acc).
Proof.
  destruct acc as [rows st]. simpl. intros H.
  destruct (Js.nonEmpty (currentField st) || negb (length (currentRow st) =? 0));
    [apply pushRow_kept; exact H | exact H].
Qed.

Lemma parseCSV_kept csvText : kept (parseCSV csvText).
Proof. apply flush_kept, parseLines_kept. constructor. Qed.
End RowsInvariant.

(** C9: every row that [parseCSV] returns has at least one non-empty
    field; a row whose fields are all empty is never part of the output. *)
Theorem parseCSV_rows_have_content (csvText : str) :
  Forall (fun row => Exists (fun field => field <> []) row) (parseCSV csvText).
Proof.
  eapply Forall_impl; [ | apply parseCSV_kept].
  intros row. apply keepRow_field.
Qed.

(** *** The tokenizer on text without quotes

    Without a quote the scanner never leaves the unquoted state, and a
    physical line becomes its comma-separated pieces, trimmed. *)

Lemma scanLine_unquoted (line : str) :
  ~ In Ch.quote line ->
  forall (row : list str) (field : str),
    let st := scanLine line (mkScan row field false) in
    inQuotes st = false
    /\ currentRow st ++ [Js.trim (currentField st)]
       = row ++ map Js.trim
                  (match piecesOf line with
                   | p :: ps => (field ++ p) :: ps
                   | [] => [field]
                   end).
Proof.
  unfold piecesOf.
  induction line as [ | c r IH]; intros Hq row field.
  - simpl. rewrite app_nil_r. auto.
  - assert (Ascii.eqb c Ch.quote = false) as Ec.
    { apply Ascii.eqb_neq. intros ->. apply Hq. left. reflexivity. }
    assert (~ In Ch.quote r) as Hr by (intros H; apply Hq; right; exact H).
    specialize (IH Hr).
    cbv zeta. simpl scanLine. rewrite Ec. simpl Js.split.
    destruct (Ascii.eqb c Ch.comma) eqn:Ecomma; simpl andb; cbv iota.
    + simpl currentRow. simpl currentField. simpl inQuotes.
      specialize (IH (row ++ [Js.trim field]) []). cbv zeta in IH.
      destruct IH as [IHq IHr]. split; [exact IHq | ].
      rewrite IHr.
      pose proof (split_not_nil Ch.comma r) as Hne.
      destruct (Js.split Ch.comma r) as [ | p ps]; [contradiction | ].
      rewrite app_nil_r. simpl. rewrite <- app_assoc. reflexivity.
    + simpl currentRow. simpl currentField. simpl inQuotes.
      specialize (IH row (field ++ [c])). cbv zeta in IH.
      destruct IH as [IHq IHr]. split; [exact IHq | ].
      rewrite IHr.
      destruct (Js.split Ch.comma r) as [ | p ps].
      * reflexivity.
      * rewrite <- app_assoc. reflexivity.
Qed.

Lemma endOfLine_unquoted (rows : list (list str)) (line : str) :
  ~ In Ch.quote line ->
  endOfLine (rows, scanLine line emptyScan)
  = (pushRow rows (map Js.trim (piecesOf line)), emptyScan).
Proof.
  intros Hq.
  destruct (scanLine_unquoted line Hq [] []) as [Hin Hrow].
  unfold emptyScan, endOfLine. rewrite Hin. simpl negb. cbv iota.
  rewrite pushRow_pushPending, Hrow.
  pose proof (@split_not_nil Ch.comma line) as Hne. unfold piecesOf.
  destruct (Js.split Ch.comma line) as [ | p ps]; [contradiction | reflexivity].
Qed.

Lemma parseLines_unquoted (lines : list str) :
  Forall (fun line => ~ In Ch.quote line) lines ->
  forall rows,
    parseLines lines (rows, emptyScan)
    = (rows ++ filter keepRow (map (fun line => map Js.trim (piecesOf line)) lines),
       emptyScan).
Proof.
  induction 1 as [ | line rest Hline Hrest IH]; intros rows.
  - simpl. rewrite app_nil_r. reflexivity.
  - change (parseLines (line :: rest) (rows, emptyScan))
      with (parseLines rest (endOfLine (rows, scanLine line emptyScan))).
    rewrite (endOfLine_unquoted rows line Hline), IH, pushRow_app.
    simpl map. simpl filter.
    destruct (keepRow (map Js.trim (piecesOf line))).
    + rewrite <- app_assoc. reflexivity.
    + rewrite app_nil_r. reflexivity.
Qed.

Lemma parseCSV_unquoted (csvText : str) :
  ~ In Ch.quote csvText ->
  parseCSV csvText
  = filter keepRow
      (map (fun line => map Js.trim (piecesOf line)) (Js.split Ch.nl csvText)).
Proof.
  intros Hq. unfold parseCSV.
  rewrite parseLines_unquoted.
  - reflexivity.
  - apply Forall_forall. intros line Hl Hx. apply Hq.
    eapply split_incl; eassumption.
Qed.

(** *** Blank input *)

Lemma blank_nonBlankLines (csvText : str) :
  blank csvText = true <-> nonBlankLines csvText = [].
Proof.
  unfold blank, nonBlankLines.
  induction (Js.split Ch.nl csvText) as [ | line rest IH]; simpl.
  - tauto.
  - split.
    + intros H. apply andb_true_iff in H. destruct H as [Hl Hr].
      rewrite (trim_all_space _ Hl). simpl. apply IH. exact Hr.
    + destruct (Js.trim line) as [ | c t] eqn:E; simpl; [ | discriminate].
      intros H. apply andb_true_iff. split; [apply trim_nil; exact E | apply IH; exact H].
Qed.

Lemma space_no_quote_no_comma (s : str) :
  forallb Ch.isSpace s = true -> ~ In Ch.quote s /\ ~ In Ch.comma s.
Proof.
  intros H. rewrite forallb_forall in H.
  split; intros Hin; apply H in Hin; discriminate.
Qed.

(** A blank text has no row. *)
Lemma parseCSV_blank (csvText : str) : blank csvText = true -> parseCSV csvText = [].
Proof.
  unfold blank. intros H.
  assert (forall line, In line (Js.split Ch.nl csvText) -> forallb Ch.isSpace line = true)
    as Hlines by (apply forallb_forall; exact H).
  unfold parseCSV. rewrite parseLines_unquoted.
  - simpl. clear H.
    induction (Js.split Ch.nl csvText) as [ | line rest IH]; [reflexivity | ].
    simpl map. simpl filter.
    assert (forallb Ch.isSpace line = true) as Hl by (apply Hlines; left; reflexivity).
    assert (piecesOf line = [line]) as Hp.
    { unfold piecesOf. destruct (space_no_quote_no_comma _ Hl) as [_ Hc].
      clear - Hc. induction line as [ | c r IHr]; [reflexivity | ].
      simpl. destruct (Ascii.eqb c Ch.comma) eqn:E.
      - apply Ascii.eqb_eq in E. subst c. exfalso. apply Hc. left. reflexivity.
      - rewrite IHr; [reflexivity | ]. intros Hin. apply Hc. right. exact Hin. }
    rewrite Hp. simpl map. rewrite (trim_all_space _ Hl).
    change (keepRow [[]]) with false. cbv iota.
    apply IH. intros l Hin. apply Hlines. right. exact Hin.
  - apply Forall_forall. intros line Hin.
    apply (space_no_quote_no_comma line). apply Hlines. exact Hin.
Qed.

(** A text of commas and white space only has no row either, blank or not. *)
Lemma parseCSV_commas_and_space (csvText : str) :
  forallb (fun c => Ch.isSpace c || Ascii.eqb c Ch.comma) csvText = true ->
  parseCSV csvText = [].
Proof.
  intros H. rewrite forallb_forall in H.
  rewrite parseCSV_unquoted.
  - assert (forall line, In line (Js.split Ch.nl csvText) ->
                         keepRow (map Js.trim (piecesOf line)) = false) as Hdrop.
    { intros line Hline. unfold keepRow.
      apply andb_false_iff. right.
      destruct (existsb Js.nonEmpty (map Js.trim (piecesOf line))) eqn:E; [ | reflexivity].
      apply existsb_exists in E. destruct E as [field [Hin Hne]].
      apply in_map_iff in Hin. destruct Hin as [piece [<- Hpiece]].
      rewrite trim_all_space in Hne; [discriminate | ].
      apply forallb_forall. intros c Hc.
      assert (In c csvText) as Hc'.
      { eapply split_incl; [exact Hline | ]. eapply split_incl; eassumption. }
      apply H in Hc'. apply orb_true_iff in Hc'. destruct Hc' as [Hs | Hcomma]; [exact Hs | ].
      apply Ascii.eqb_eq in Hcomma. subst c.
      exfalso. exact (split_no_sep Ch.comma line piece Hpiece Hc). }
    induction (Js.split Ch.nl csvText) as [ | line rest IH]; [reflexivity | ].
    simpl. rewrite (Hdrop line) by (left; reflexivity).
    apply IH. intros l Hl. apply Hdrop. right. exact Hl.
  - intros Hq. apply H in Hq. discriminate.
Qed.

(** A text with a row is not blank. *)
Lemma parseCSV_row_not_blank (csvText : str) (headers : list str) rest :
  parseCSV csvText = headers :: rest -> (length (nonBlankLines csvText) =? 0) = false.
Proof.
  intros Hrows.
  destruct (nonBlankLines csvText) as [ | l ls] eqn:E; [ | reflexivity].
  apply blank_nonBlankLines in E. apply parseCSV_blank in E. congruence.
Qed.

(** ** RowValidator *)

Lemma length_setAt (i : nat) (v : str) (arr : list str) :
  length (setAt i v arr) = length arr.
Proof.
  revert i. induction arr as [ | x r IH]; intros i; [reflexivity | ].
  destruct i; simpl; [reflexivity | rewrite IH; reflexivity].
Qed.

Lemma forallb_setAt (P : str -> bool) (i : nat) (v : str) (arr : list str) :
  P v = true ->
  (forall j, j <> i -> P (nth j arr []) = true) ->
  forallb P (setAt i v arr) = true.
Proof.
  intros Hv. revert i. induction arr as [ | x r IH]; intros i H; [reflexivity | ].
  destruct i as [ | i]; simpl.
  - rewrite Hv. simpl.
    apply forallb_forall. intros y Hy.
    destruct (In_nth r y [] Hy) as [n [_ Hn]].
    rewrite <- Hn. apply (H (S n)). discriminate.
  - pose proof (H 0) as H0. simpl in H0. rewrite H0 by discriminate. simpl.
    apply IH. intros j Hj. apply (H (S j)). congruence.
Qed.

Lemma inRange_length (i : Z) (a b : list str) :
  length a = length b -> inRange i a = inRange i b.
Proof. unfold inRange. intros ->. reflexivity. Qed.

Lemma length_rowBeforePhone (row : list str) (e : Z) :
  length (rowBeforePhone row e) = length row.
Proof.
  unfold rowBeforePhone. cbv zeta.
  destruct (inRange e (map cleanField row));
    [rewrite length_setAt | ]; apply length_map.
Qed.

(** [validateAndCleanRow], stage by stage. *)
Lemma validateAndCleanRow_stages (row : list str) (width : nat) (e p : Z) :
  validateAndCleanRow row width e p
  = if negb (length row =? width) then None
    else if inRange e (map cleanField row)
            && negb (isValidEmail
                       (autoCorrectEmailDomain (nth (Z.to_nat e) (map cleanField row) [])))
    then None
    else if forallb fieldPassesSweep (phoneStep (rowBeforePhone row e) p)
    then Some (phoneStep (rowBeforePhone row e) p)
    else None.
Proof.
  unfold validateAndCleanRow, rowBeforePhone, phoneStep. cbv zeta.
  destruct (negb (length row =? width)); [reflexivity | ].
  destruct (inRange e (map cleanField row)); simpl andb; cbv iota; [ | reflexivity].
  destruct (negb (isValidEmail _)); reflexivity.
Qed.

Lemma length_phoneStep (r : list str) (p : Z) : length (phoneStep r p) = length r.
Proof.
  unfold phoneStep. cbv zeta.
  destruct (inRange p r); [ | reflexivity].
  destruct (_ && _); [apply length_setAt | reflexivity].
Qed.

Lemma validateAndCleanRow_length (row : list str) (width : nat) (e p : Z) (r : list str) :
  validateAndCleanRow row width e p = Some r -> length r = width.
Proof.
  rewrite validateAndCleanRow_stages.
  destruct (length row =? width) eqn:Hw; simpl negb; cbv iota; [ | discriminate].
  apply Nat.eqb_eq in Hw.
  destruct (_ && _); [discriminate | ].
  destruct (forallb _ _); [ | discriminate].
  intros H. injection H as <-.
  rewrite length_phoneStep, length_rowBeforePhone. exact Hw.
Qed.

(** C4 (as amended): a row of the expected width, whose email field (when
    the email index points into the row) validates after normalisation,
    whose phone field is non-empty after trimming and fails
    [isValidPhoneNumber], and whose other fields pass the malformed-quote
    sweep, is accepted: the result is the cleaned row with the phone field
    replaced by the empty string.  Nothing is asked of the content of the
    phone field itself. *)
Theorem validateAndCleanRow_clears_invalid_phone
    (row : list str) (width : nat) (e p : Z) :
  length row = width ->
  (inRange e (map cleanField row) = true ->
   isValidEmail (autoCorrectEmailDomain (nth (Z.to_nat e) (map cleanField row) [])) = true) ->
  (0 <= p < Z.of_nat (length row))%Z ->
  Js.trim (nth (Z.to_nat p) (rowBeforePhone row e) []) <> [] ->
  isValidPhoneNumber (nth (Z.to_nat p) (rowBeforePhone row e) []) = false ->
  (forall j, j <> Z.to_nat p ->
             fieldPassesSweep (nth j (rowBeforePhone row e) []) = true) ->
  validateAndCleanRow row width e p
  = Some (setAt (Z.to_nat p) [] (rowBeforePhone row e)).
Proof.
  intros Hw Hemail Hp Hne Hbad Hsweep.
  rewrite validateAndCleanRow_stages.
  apply Nat.eqb_eq in Hw. rewrite Hw. simpl negb. cbv iota.
  assert (inRange e (map cleanField row)
          && negb (isValidEmail
                     (autoCorrectEmailDomain (nth (Z.to_nat e) (map cleanField row) [])))
          = false) as He.
  { destruct (inRange e (map cleanField row)); [ | reflexivity].
    rewrite Hemail by reflexivity. reflexivity. }
  rewrite He.
  assert (phoneStep (rowBeforePhone row e) p
          = setAt (Z.to_nat p) [] (rowBeforePhone row e)) as Hstep.
  { unfold phoneStep. cbv zeta.
    assert (inRange p (rowBeforePhone row e) = true) as Hin.
    { unfold inRange. rewrite length_rowBeforePhone.
      apply andb_true_iff. split; [apply Z.leb_le | apply Z.ltb_lt]; lia. }
    rewrite Hin, Hbad.
    destruct (nth (Z.to_nat p) (rowBeforePhone row e) []) as [ | c t] eqn:E.
    - exfalso. apply Hne. reflexivity.
    - destruct (Js.trim (c :: t)); [contradiction | reflexivity]. }
  rewrite Hstep.
  rewrite forallb_setAt; [reflexivity | reflexivity | exact Hsweep].
Qed.

Lemma validateAndCleanRow_clears_invalid_phone_witness :
  validateAndCleanRow [lit "Bob"; lit "bob@x.com"; lit "123"] 3 1 2
  = Some [lit "Bob"; lit "bob@x.com"; []].
Proof.
  apply (validateAndCleanRow_clears_invalid_phone
           [lit "Bob"; lit "bob@x.com"; lit "123"] 3 1 2).
  - reflexivity.
  - intros _. reflexivity.
  - simpl. lia.
  - vm_compute. discriminate.
  - reflexivity.
  - intros j _. destruct j as [ | [ | [ | [ | j]]]]; reflexivity.
Defined.

(** C4 (as stated) fails: the sweep over the other fields comes after the
    phone step and can still reject the row.  Here the first field keeps
    an unbalanced quote. *)
Lemma validateAndCleanRow_invalid_phone_row_rejected :
  ~ (forall (row : list str) (width : nat) (e p : Z),
        length row = width ->
        (inRange e (map cleanField row) = true ->
         isValidEmail
           (autoCorrectEmailDomain (nth (Z.to_nat e) (map cleanField row) [])) = true) ->
        (0 <= p < Z.of_nat (length row))%Z ->
        Js.trim (nth (Z.to_nat p) (rowBeforePhone row e) []) <> [] ->
        isValidPhoneNumber (nth (Z.to_nat p) (rowBeforePhone row e) []) = false ->
        validateAndCleanRow row width e p
        = Some (setAt (Z.to_nat p) [] (rowBeforePhone row e))).
Proof.
  intros H.
  specialize (H [lit "a" ++ [Ch.quote] ++ lit "b"; lit "bob@x.com"; lit "123"] 3 1%Z 2%Z).
  assert (validateAndCleanRow
            [lit "a" ++ [Ch.quote] ++ lit "b"; lit "bob@x.com"; lit "123"] 3 1 2
          = None) as Hnone by reflexivity.
  rewrite Hnone in H.
  assert (@None (list str) <> None) as Habs; [ | apply Habs; reflexivity].
  rewrite H at 1.
  - discriminate.
  - reflexivity.
  - intros _. reflexivity.
  - simpl. lia.
  - vm_compute. discriminate.
  - reflexivity.
Qed.

(** ** Pipeline *)

(** C1 (as amended): on a blank input, whatever the non-empty list of
    expected columns, [validateAndCleanCSV] raises nothing and returns the
    result with no valid row and a count of zero. *)
Theorem validateAndCleanCSV_blank (csvText : str) (expectedColumns : list str) :
  expectedColumns <> [] ->
  blank csvText = true ->
  validateAndCleanCSV csvText expectedColumns = Returned (mkResult [] 0).
Proof.
  intros _ Hb. apply blank_nonBlankLines in Hb.
  unfold validateAndCleanCSV. cbv zeta. rewrite Hb. reflexivity.
Qed.

Lemma validateAndCleanCSV_blank_witness :
  validateAndCleanCSV (lit "  " ++ [Ch.nl] ++ lit " ") [lit "name"; lit "email"]
  = Returned (mkResult [] 0).
Proof.
  apply validateAndCleanCSV_blank; [discriminate | reflexivity].
Defined.

(** C1 (as stated) fails: a blank input does not make the call fail. *)
Lemma validateAndCleanCSV_blank_no_error :
  ~ (forall csvText expectedColumns,
        expectedColumns <> [] ->
        blank csvText = true ->
        exists message, validateAndCleanCSV csvText expectedColumns = ThrownError message).
Proof.
  intros H.
  destruct (H (lit " ") [lit "name"]) as [message Hm];
    [discriminate | reflexivity | ].
  vm_compute in Hm. discriminate.
Qed.

(** The call ends in a [TypeError] exactly on the inputs that are not blank
    and of which the tokenizer keeps no row. *)
Lemma validateAndCleanCSV_TypeError (csvText : str) (expectedColumns : list str) :
  validateAndCleanCSV csvText expectedColumns = ThrownTypeError
  <-> blank csvText = false /\ parseCSV csvText = [].
Proof.
  unfold validateAndCleanCSV. cbv zeta.
  destruct (blank csvText) eqn:Hb.
  - apply blank_nonBlankLines in Hb. rewrite Hb. simpl.
    split; [discriminate | intros [Habs _]; discriminate].
  - destruct (nonBlankLines csvText) as [ | l ls] eqn:E.
    + apply blank_nonBlankLines in E. congruence.
    + simpl. destruct (parseCSV csvText) as [ | headers dataRows].
      * tauto.
      * split; [ | intros [_ Habs]; discriminate].
        destruct (negb _); [discriminate | ].
        destruct (checkHeaderNames _ _ _); discriminate.
Qed.

(** C7: when three columns are expected and the header row that the
    tokenizer returns has two fields, the call throws the error whose
    message gives the expected count 3 and the count 2 of the text. *)
Theorem validateAndCleanCSV_count_mismatch
    (csvText : str) (expectedColumns headers : list str) (dataRows : list (list str)) :
  length expectedColumns = 3 ->
  parseCSV csvText = headers :: dataRows ->
  length headers = 2 ->
  validateAndCleanCSV csvText expectedColumns
  = ThrownError (lit "Column count mismatch. Expected 3 columns, but CSV has 2 columns.").
Proof.
  intros Hcols Hrows Hh.
  unfold validateAndCleanCSV. cbv zeta.
  rewrite (parseCSV_row_not_blank csvText headers dataRows Hrows).
  rewrite Hrows, Hh, Hcols. reflexivity.
Qed.

Lemma validateAndCleanCSV_count_mismatch_witness :
  validateAndCleanCSV (csvOf ["name,email"; "Ada,ada@x.com"]%string)
    [lit "name"; lit "email"; lit "phone"]
  = ThrownError (lit "Column count mismatch. Expected 3 columns, but CSV has 2 columns.").
Proof.
  apply (validateAndCleanCSV_count_mismatch
           (csvOf ["name,email"; "Ada,ada@x.com"]%string)
           [lit "name"; lit "email"; lit "phone"]
           [lit "name"; lit "email"] [[lit "Ada"; lit "ada@x.com"]]);
    reflexivity.
Defined.

Lemma processRows_widths (width : nat) (e p : Z) (dataRows : list (list str)) :
  forall acc,
    Forall (fun row => length row = width) (validRows acc) ->
    Forall (fun row => length row = width) (validRows (processRows width e p dataRows acc)).
Proof.
  induction dataRows as [ | row rest IH]; intros acc Hacc; [exact Hacc | ].
  unfold processRows in *. simpl fold_left. apply IH.
  destruct (validateAndCleanRow row width e p) as [cleaned | ] eqn:E; simpl.
  - apply Forall_app. split; [exact Hacc | ].
    constructor; [ | constructor].
    eapply validateAndCleanRow_length. exact E.
  - exact Hacc.
Qed.

(** C10: when [validateAndCleanCSV] returns on an input that is not blank,
    every row of [validRows], the cleaned header and each accepted data
    row, has as many fields as there are expected columns. *)
Theorem validateAndCleanCSV_widths
    (csvText : str) (expectedColumns : list str) (result : ParseResult) :
  blank csvText = false ->
  validateAndCleanCSV csvText expectedColumns = Returned result ->
  Forall (fun row => length row = length expectedColumns) (validRows result).
Proof.
  intros _. unfold validateAndCleanCSV. cbv zeta.
  destruct (length (nonBlankLines csvText) =? 0).
  - intros H. injection H as <-. constructor.
  - destruct (parseCSV csvText) as [ | headers dataRows]; [discriminate | ].
    destruct (length headers =? length expectedColumns) eqn:Hw; simpl negb; cbv iota;
      [ | discriminate].
    apply Nat.eqb_eq in Hw.
    destruct (checkHeaderNames 0 headers expectedColumns); [discriminate | ].
    intros H. injection H as <-.
    apply processRows_widths. simpl.
    constructor; [ | constructor].
    rewrite length_map. exact Hw.
Qed.

Lemma validateAndCleanCSV_widths_witness :
  Forall (fun row => length row = 2)
    [[lit "name"; lit "email"]; [lit "Ada"; lit "ada@x.com"]].
Proof.
  apply (validateAndCleanCSV_widths
           (csvOf ["name,email"; "Ada,ada@x.con"; "Bob,not-an-email"; ""]%string)
           [lit "name"; lit "email"]
           (mkResult [[lit "name"; lit "email"]; [lit "Ada"; lit "ada@x.com"]] 1));
    reflexivity.
Defined.

(** ** Tokenizer then Serializer *)

Lemma split_cover (sep : ascii) (s : str) (x : ascii) :
  In x s -> x <> sep -> exists piece, In piece (Js.split sep s) /\ In x piece.
Proof.
  intros Hx Hsep. induction s as [ | d r IH]; [destruct Hx | ].
  simpl Js.split. destruct (Ascii.eqb d sep) eqn:Ed.
  - apply Ascii.eqb_eq in Ed. subst d.
    destruct Hx as [-> | Hx]; [contradiction Hsep; reflexivity | ].
    destruct (IH Hx) as [piece [Hp Hin]].
    exists piece. split; [right; exact Hp | exact Hin].
  - pose proof (split_not_nil sep r) as Hne.
    destruct (Js.split sep r) as [ | f fs]; [contradiction | ].
    destruct Hx as [-> | Hx].
    + exists (x :: f). split; left; reflexivity.
    + destruct (IH Hx) as [piece [[<- | Hp] Hin]].
      * exists (d :: f). split; [left; reflexivity | right; exact Hin].
      * exists piece. split; [right; exact Hp | exact Hin].
Qed.

Lemma cleanUnquoted_piece (line piece : str) :
  In piece (piecesOf line) -> cleanUnquoted piece -> Js.trim piece = piece.
Proof.
  intros Hin [Hclean Hq].
  rewrite <- Hclean at 2. symmetry.
  apply cleanField_without_repair, needsNoRepair_plain; [ | exact Hq].
  eapply split_no_sep. exact Hin.
Qed.

Lemma serializeField_plain (field : str) :
  ~ In Ch.comma field -> ~ In Ch.quote field -> ~ In Ch.nl field ->
  serializeField field = field.
Proof.
  intros Hc Hq Hn. unfold serializeField.
  apply includesChar_false in Hc, Hq, Hn. rewrite Hc, Hq, Hn. reflexivity.
Qed.

(** One physical line of clean, unquoted fields. *)
Lemma line_roundtrip (line : str) :
  ~ In Ch.nl line ->
  Exists (fun field => field <> []) (piecesOf line) ->
  Forall cleanUnquoted (piecesOf line) ->
  ~ In Ch.quote line
  /\ map Js.trim (piecesOf line) = piecesOf line
  /\ keepRow (piecesOf line) = true
  /\ Js.join [Ch.comma] (map serializeField (piecesOf line)) = line.
Proof.
  intros Hnl Hex Hall. rewrite Forall_forall in Hall.
  assert (~ In Ch.quote line) as Hq.
  { intros Hin.
    destruct (split_cover Ch.comma line Ch.quote Hin) as [piece [Hp Hx]]; [discriminate | ].
    destruct (Hall piece Hp) as [_ Hno]. exact (Hno Hx). }
  split; [exact Hq | ]. split; [ | split].
  - rewrite <- (map_id (piecesOf line)) at 2.
    apply map_ext_in. intros piece Hp.
    apply (cleanUnquoted_piece line piece Hp). apply Hall. exact Hp.
  - apply field_keepRow. exact Hex.
  - assert (map serializeField (piecesOf line) = piecesOf line) as Hs.
    { rewrite <- (map_id (piecesOf line)) at 2.
      apply map_ext_in. intros piece Hp.
      apply serializeField_plain.
      - eapply split_no_sep. exact Hp.
      - intros Hx. apply Hq. eapply split_incl; eassumption.
      - intros Hx. apply Hnl. eapply split_incl; eassumption. }
    rewrite Hs. apply join_split.
Qed.

(** C8: on a row-preserving input whose fields are all clean and unquoted,
    [arrayToCSV] after [parseCSV] gives the input text back. *)
Theorem arrayToCSV_parseCSV_roundtrip (csvText : str) :
  rowPreservingClean csvText -> arrayToCSV (parseCSV csvText) = csvText.
Proof.
  unfold rowPreservingClean. intros H.
  assert (Forall (fun line =>
                    ~ In Ch.quote line
                    /\ map Js.trim (piecesOf line) = piecesOf line
                    /\ keepRow (piecesOf line) = true
                    /\ Js.join [Ch.comma] (map serializeField (piecesOf line)) = line)
                 (Js.split Ch.nl csvText)) as Hlines.
  { rewrite Forall_forall in *. intros line Hin.
    destruct (H line Hin) as [Hex Hall].
    apply line_roundtrip; [ | exact Hex | exact Hall].
    eapply split_no_sep. exact Hin. }
  clear H.
  assert (filter keepRow
            (map (fun line => map Js.trim (piecesOf line)) (Js.split Ch.nl csvText))
          = map piecesOf (Js.split Ch.nl csvText)) as Hrows.
  { induction Hlines as [ | line rest (_ & Htrim & Hkeep & _) _ IH]; [reflexivity | ].
    simpl. rewrite Htrim, Hkeep, IH. reflexivity. }
  assert (map (fun row => Js.join [Ch.comma] (map serializeField row))
            (map piecesOf (Js.split Ch.nl csvText))
          = Js.split Ch.nl csvText) as Htext.
  { clear Hrows.
    induction Hlines as [ | line rest (_ & _ & _ & Hjoin) _ IH]; [reflexivity | ].
    simpl. rewrite Hjoin, IH. reflexivity. }
  rewrite parseCSV_unquoted.
  - unfold arrayToCSV. rewrite Hrows, Htext. apply join_split.
  - intros Hin.
    destruct (split_cover Ch.nl csvText Ch.quote Hin) as [line [Hl Hx]]; [discriminate | ].
    rewrite Forall_forall in Hlines. destruct (Hlines line Hl) as [Hq _]. exact (Hq Hx).
Qed.

Lemma arrayToCSV_parseCSV_roundtrip_witness :
  arrayToCSV (parseCSV (csvOf ["name,email"; "Ada,ada@x.com"]%string))
  = csvOf ["name,email"; "Ada,ada@x.com"]%string.
Proof.
  apply arrayToCSV_parseCSV_roundtrip.
  unfold rowPreservingClean, cleanUnquoted.
  repeat constructor; try discriminate;
    intros Hin; vm_compute in Hin; intuition discriminate.
Defined.

(** * Further properties of the code *)

(** ** Tokenizer: what every result satisfies *)

(** Induction that may also use the tail of the tail, for the loops that
    skip a character. *)
Lemma list_ind_skip (A : Type) (P : list A -> Prop) :
  P [] ->
  (forall a l, P l -> (forall b l', l = b :: l' -> P l') -> P (a :: l)) ->
  forall l, P l.
Proof.
  intros Hnil Hcons l.
  assert (P l /\ (forall b l', l = b :: l' -> P l')) as [H _]; [ | exact H].
  induction l as [ | a l [IH1 IH2]].
  - split; [exact Hnil | discriminate].
  - split; [apply Hcons; assumption | ].
    intros b l' E. injection E as _ <-. exact IH1.
Qed.

(** [scanLine] only adds trimmed fields at the end of the current row. *)
Lemma scanLine_currentRow (line : str) :
  forall st, exists fields,
    currentRow (scanLine line st) = currentRow st ++ map Js.trim fields.
Proof.
  induction line as [ | c r IH IHskip] using list_ind_skip; intros st.
  - exists []. simpl. rewrite app_nil_r. reflexivity.
  - simpl scanLine. destruct (Ascii.eqb c Ch.quote).
    + destruct r as [ | n r'].
      * exists []. simpl. rewrite app_nil_r. reflexivity.
      * destruct (inQuotes st && Ascii.eqb n Ch.quote).
        -- destruct (IHskip n r' eq_refl
                       (mkScan (currentRow st) (currentField st ++ [Ch.quote]) (inQuotes st)))
             as [fields Hf].
           exists fields. exact Hf.
        -- destruct (IH (mkScan (currentRow st) (currentField st) (negb (inQuotes st))))
             as [fields Hf].
           exists fields. exact Hf.
    + destruct (Ascii.eqb c Ch.comma && negb (inQuotes st)).
      * destruct (IH (mkScan (currentRow st ++ [Js.trim (currentField st)]) [] (inQuotes st)))
          as [fields Hf].
        exists (currentField st :: fields). rewrite Hf. simpl.
        rewrite <- app_assoc. reflexivity.
      * destruct (IH (mkScan (currentRow st) (currentField st ++ [c]) (inQuotes st)))
          as [fields Hf].
        exists fields. exact Hf.
Qed.

Lemma trimmedRow_app (a b : list str) :
  trimmedRow a -> trimmedRow b -> trimmedRow (a ++ b).
Proof. intros Ha Hb. apply Forall_app. split; assumption. Qed.

Lemma trimmedRow_map_trim (fields : list str) : trimmedRow (map Js.trim fields).
Proof.
  apply Forall_forall. intros f Hf. apply in_map_iff in Hf.
  destruct Hf as [g [<- _]]. apply trim_idempotent.
Qed.

Lemma scanLine_trimmed (line : str) (st : Scan) :
  trimmedRow (currentRow st) -> trimmedRow (currentRow (scanLine line st)).
Proof.
  intros H. destruct (scanLine_currentRow line st) as [fields ->].
  apply trimmedRow_app; [exact H | apply trimmedRow_map_trim].
Qed.

Lemma pushPending_trimmed (st : Scan) :
  trimmedRow (currentRow st) -> trimmedRow (pushPending st).
Proof.
  intros H. unfold pushPending.
  destruct (_ || _); [ | exact H].
  apply trimmedRow_app; [exact H | apply (trimmedRow_map_trim [currentField st])].
Qed.

Lemma pushRow_trimmed (rows : list (list str)) (row : list str) :
  Forall trimmedRow rows -> trimmedRow row -> Forall trimmedRow (pushRow rows row).
Proof.
  intros Hrows Hrow. rewrite pushRow_app. apply Forall_app. split; [exact Hrows | ].
  destruct (keepRow row); constructor; [exact Hrow | constructor].
Qed.

Lemma parseLines_trimmed (lines : list str) :
  forall acc,
    Forall trimmedRow (fst acc) /\ trimmedRow (currentRow (snd acc)) ->
    Forall trimmedRow (fst (parseLines lines acc))
    /\ trimmedRow (currentRow (snd (parseLines lines acc))).
Proof.
  induction lines as [ | line rest IH]; intros acc Hacc; [exact Hacc | ].
  change (parseLines (line :: rest) acc)
    with (parseLines rest (endOfLine (fst acc, scanLine line (snd acc)))).
  apply IH. destruct acc as [rows st]. destruct Hacc as [Hrows Hst]. simpl fst. simpl snd.
  pose proof (scanLine_trimmed line st Hst) as Hscan.
  unfold endOfLine. destruct (inQuotes (scanLine line st)); simpl.
  - split; assumption.
  - split; [ | constructor].
    apply pushRow_trimmed; [exact Hrows | apply pushPending_trimmed; exact Hscan].
Qed.

Lemma parseCSV_trimmedRows (csvText : str) :
  Forall trimmedRow (parseCSV csvText).
Proof.
  unfold parseCSV.
  destruct (parseLines_trimmed (Js.split Ch.nl csvText) ([], emptyScan)) as [Hrows Hst].
  { split; constructor. }
  destruct (parseLines (Js.split Ch.nl csvText) ([], emptyScan)) as [rows st].
  simpl in *. destruct (_ || _); [ | exact Hrows].
  apply pushRow_trimmed; [exact Hrows | ].
  apply trimmedRow_app; [exact Hst | apply (trimmedRow_map_trim [currentField st])].
Qed.

(** X1: every field of every row that [parseCSV] returns is trimmed; no
    field starts or ends with white space. *)
Theorem parseCSV_fields_trimmed (csvText : str) :
  Forall trimmedRow (parseCSV csvText).
Proof. apply parseCSV_trimmedRows. Qed.

(** ** Tokenizer: lines and the end of the text *)

Lemma parseLines_cons (line : str) (lines : list str) (acc : list (list str) * Scan) :
  parseLines (line :: lines) acc
  = parseLines lines (endOfLine (fst acc, scanLine line (snd acc))).
Proof. reflexivity. Qed.

Lemma parseLines_app (a b : list str) (acc : list (list str) * Scan) :
  parseLines (a ++ b) acc = parseLines b (parseLines a acc).
Proof. unfold parseLines. apply fold_left_app. Qed.

Lemma split_snoc_sep (sep : ascii) (s : str) :
  Js.split sep (s ++ [sep]) = Js.split sep s ++ [[]].
Proof.
  induction s as [ | d r IH]; simpl.
  - rewrite Ascii.eqb_refl. reflexivity.
  - destruct (Ascii.eqb d sep).
    + rewrite IH. reflexivity.
    + rewrite IH. pose proof (split_not_nil sep r) as Hne.
      destruct (Js.split sep r) as [ | f fs]; [contradiction | reflexivity].
Qed.

Lemma trimEnd_snoc_space (s : str) (c : ascii) :
  Ch.isSpace c = true -> Js.trimEnd (s ++ [c]) = Js.trimEnd s.
Proof.
  intros Hc. unfold Js.trimEnd. rewrite rev_app_distr. simpl. rewrite Hc. reflexivity.
Qed.

Lemma dropWhile_app_stop (p : ascii -> bool) (s t : str) :
  forallb p s = false -> Js.dropWhile p (s ++ t) = Js.dropWhile p s ++ t.
Proof.
  induction s as [ | d r IH]; simpl; [discriminate | ].
  destruct (p d); simpl; [exact IH | reflexivity].
Qed.

(** White space added at the end of a string is trimmed away. *)
Lemma trim_snoc_space (s : str) (c : ascii) :
  Ch.isSpace c = true -> Js.trim (s ++ [c]) = Js.trim s.
Proof.
  intros Hc. unfold Js.trim, Js.trimStart.
  destruct (forallb Ch.isSpace s) eqn:E.
  - rewrite (dropWhile_all _ s E).
    rewrite dropWhile_all; [reflexivity | ].
    rewrite forallb_app, E. simpl. rewrite Hc. reflexivity.
  - rewrite dropWhile_app_stop by exact E.
    apply trimEnd_snoc_space. exact Hc.
Qed.

(** An empty physical line before the end of the text changes nothing. *)
Lemma flush_endOfLine (acc : list (list str) * Scan) :
  flush (endOfLine acc) = flush acc.
Proof.
  destruct acc as [rows [row field inQ]]. unfold endOfLine. simpl inQuotes.
  destruct inQ; simpl negb; cbv iota.
  - unfold flush. simpl currentField. simpl currentRow.
    rewrite (trim_snoc_space field Ch.nl eq_refl).
    destruct field as [ | c f]; [ | reflexivity].
    destruct row as [ | r rs]; reflexivity.
  - unfold flush, pushPending. simpl currentField. simpl currentRow.
    destruct (Js.nonEmpty field || negb (length row =? 0)) eqn:E; simpl.
    + reflexivity.
    + destruct field; [ | discriminate]. destruct row; [reflexivity | discriminate].
Qed.

Lemma parseCSV_snoc_newline (csvText : str) :
  parseCSV (csvText ++ [Ch.nl]) = parseCSV csvText.
Proof.
  unfold parseCSV. rewrite split_snoc_sep, parseLines_app.
  destruct (parseLines (Js.split Ch.nl csvText) ([], emptyScan)) as [rows st].
  rewrite parseLines_cons. simpl scanLine. simpl fst. simpl snd.
  change (parseLines [] (endOfLine (rows, st))) with (endOfLine (rows, st)).
  apply flush_endOfLine.
Qed.

(** X2: a line feed added at the end of the text never changes the rows,
    whatever the text, even one that ends inside an open quote. *)
Theorem parseCSV_trailing_newline (csvText : str) :
  parseCSV (csvText ++ [Ch.nl]) = parseCSV csvText.
Proof. apply parseCSV_snoc_newline. Qed.

Lemma length_pushRow (rows : list (list str)) (row : list str) :
  length (pushRow rows row) <= S (length rows).
Proof.
  rewrite pushRow_app, length_app. destruct (keepRow row); simpl; lia.
Qed.

(** After [k] lines there are at most [k] rows, and one less while a
    quoted field is still open. *)
Lemma parseLines_count (lines : list str) :
  forall (acc : list (list str) * Scan) (k : nat),
    (length (fst acc) <= k /\ (snd acc = emptyScan \/ S (length (fst acc)) <= k)) ->
    let acc' := parseLines lines acc in
    length (fst acc') <= k + length lines
    /\ (snd acc' = emptyScan \/ S (length (fst acc')) <= k + length lines).
Proof.
  induction lines as [ | line rest IH]; intros acc k Hacc; cbv zeta.
  - simpl. rewrite Nat.add_0_r. exact Hacc.
  - rewrite parseLines_cons. simpl length.
    replace (k + S (length rest)) with (S k + length rest) by lia.
    apply IH. destruct acc as [rows st]. simpl fst in *. simpl snd in *.
    unfold endOfLine. destruct (inQuotes (scanLine line st)); simpl.
    + split; [lia | right; lia].
    + pose proof (length_pushRow rows (pushPending (scanLine line st))).
      split; [lia | left; reflexivity].
Qed.

(** X3: [parseCSV] returns at most one row for each physical line of the
    text. *)
Theorem parseCSV_rows_le_lines (csvText : str) :
  length (parseCSV csvText) <= length (Js.split Ch.nl csvText).
Proof.
  unfold parseCSV.
  destruct (parseLines_count (Js.split Ch.nl csvText) ([], emptyScan) 0) as [Hle Hst].
  { simpl. split; [lia | left; reflexivity]. }
  destruct (parseLines (Js.split Ch.nl csvText) ([], emptyScan)) as [rows st].
  simpl in *. destruct Hst as [-> | Hst].
  - simpl. exact Hle.
  - destruct (_ || _); [ | lia].
    pose proof (length_pushRow rows (currentRow st ++ [Js.trim (currentField st)])). lia.
Qed.

(** ** Tokenizer: the loop over lines is one pass over the text *)

Lemma parseLines_first_char (c : ascii) (f : str) (fs : list str)
    (rows : list (list str)) (st st' : Scan) :
  scanLine (c :: f) st = scanLine f st' ->
  parseLines ((c :: f) :: fs) (rows, st) = parseLines (f :: fs) (rows, st').
Proof.
  intros H. rewrite !parseLines_cons. simpl fst. simpl snd. rewrite H. reflexivity.
Qed.

Lemma split_head_char (sep n : ascii) (r : str) :
  Ascii.eqb n sep = false ->
  exists f fs, Js.split sep r = f :: fs /\ Js.split sep (n :: r) = (n :: f) :: fs.
Proof.
  intros E. pose proof (split_not_nil sep r) as Hne.
  destruct (Js.split sep r) as [ | f fs] eqn:Er; [contradiction | ].
  exists f, fs. split; [reflexivity | ]. simpl. rewrite E, Er. reflexivity.
Qed.

Lemma parseLines_scanText (text : str) :
  forall acc, parseLines (Js.split Ch.nl text) acc = endOfLine (scanText text acc).
Proof.
  induction text as [ | c r IH IHskip] using list_ind_skip; intros [rows st].
  - reflexivity.
  - destruct (Ascii.eqb c Ch.nl) eqn:Enl.
    + simpl Js.split. simpl scanText. rewrite Enl.
      rewrite parseLines_cons. simpl scanLine. simpl fst. simpl snd. apply IH.
    + destruct (split_head_char Ch.nl c r Enl) as (f & fs & Hr & Hcr).
      rewrite Hcr. simpl scanText. rewrite Enl. simpl snd. simpl fst.
      destruct (Ascii.eqb c Ch.quote) eqn:Eq.
      * destruct r as [ | n r'].
        -- simpl in Hr. injection Hr as <- <-.
           rewrite <- (IH (rows, mkScan (currentRow st) (currentField st) (negb (inQuotes st)))).
           apply parseLines_first_char. simpl. rewrite Eq. reflexivity.
        -- destruct (inQuotes st && Ascii.eqb n Ch.quote) eqn:Econd.
           ++ assert (Ascii.eqb n Ch.nl = false) as En.
              { apply andb_true_iff in Econd. destruct Econd as [_ En].
                apply Ascii.eqb_eq in En. subst n. reflexivity. }
              destruct (split_head_char Ch.nl n r' En) as (f' & fs' & Hr' & Hnr').
              rewrite Hnr' in Hr. injection Hr as <- <-.
              rewrite <- (IHskip n r' eq_refl), Hr'.
              rewrite !parseLines_cons. simpl fst. simpl snd.
              simpl scanLine. rewrite Eq, Econd. reflexivity.
           ++ rewrite <- (IH (rows, mkScan (currentRow st) (currentField st)
                                      (negb (inQuotes st)))), Hr.
              apply parseLines_first_char. simpl scanLine. rewrite Eq.
              destruct f as [ | n' f']; [reflexivity | ].
              assert (n' = n) as ->.
              { simpl in Hr. destruct (Ascii.eqb n Ch.nl); [discriminate | ].
                destruct (Js.split Ch.nl r'); injection Hr as -> _; reflexivity. }
              rewrite Econd. reflexivity.
      * destruct (Ascii.eqb c Ch.comma && negb (inQuotes st)) eqn:Ecomma.
        -- rewrite <- (IH (rows, _)), Hr.
           apply parseLines_first_char. simpl scanLine. rewrite Eq, Ecomma. reflexivity.
        -- rewrite <- (IH (rows, _)), Hr.
           apply parseLines_first_char. simpl scanLine. rewrite Eq, Ecomma. reflexivity.
Qed.

Lemma parseCSV_scanText (csvText : str) :
  parseCSV csvText = flush (scanText csvText ([], emptyScan)).
Proof.
  unfold parseCSV. rewrite parseLines_scanText. apply flush_endOfLine.
Qed.

(** ** Serializer then Tokenizer *)

Lemma scanText_plain (f : str) :
  ~ In Ch.comma f -> ~ In Ch.quote f -> ~ In Ch.nl f ->
  forall rest rows row field,
    scanText (f ++ rest) (rows, mkScan row field false)
    = scanText rest (rows, mkScan row (field ++ f) false).
Proof.
  induction f as [ | c f IH]; intros Hc Hq Hn rest rows row field.
  - simpl. rewrite app_nil_r. reflexivity.
  - assert (Ascii.eqb c Ch.nl = false) as En
        by (apply Ascii.eqb_neq; intros ->; apply Hn; left; reflexivity).
    assert (Ascii.eqb c Ch.quote = false) as Eq
        by (apply Ascii.eqb_neq; intros ->; apply Hq; left; reflexivity).
    assert (Ascii.eqb c Ch.comma = false) as Ec
        by (apply Ascii.eqb_neq; intros ->; apply Hc; left; reflexivity).
    simpl app. simpl scanText. rewrite En, Eq, Ec. simpl andb. cbv iota.
    simpl fst. simpl currentRow. simpl currentField. simpl inQuotes.
    rewrite IH by (intros H; first [apply Hc; right; exact H | apply Hq; right; exact H | apply Hn; right; exact H]).
    rewrite <- app_assoc. reflexivity.
Qed.

(** Inside quotes: the doubled content up to the closing quote. *)
Lemma scanText_quoted (f : str) :
  forall rest rows row field,
    Js.startsWithChar Ch.quote rest = false ->
    scanText (Js.doubleQuotes f ++ Ch.quote :: rest) (rows, mkScan row field true)
    = scanText rest (rows, mkScan row (field ++ f) false).
Proof.
  induction f as [ | c f IH]; intros rest rows row field Hrest.
  - simpl app. rewrite app_nil_r.
    destruct rest as [ | n rest']; [reflexivity | ].
    simpl in Hrest. simpl scanText.
    change (Ascii.eqb Ch.quote Ch.nl) with false.
    change (Ascii.eqb Ch.quote Ch.quote) with true. cbv iota.
    simpl snd. simpl inQuotes. rewrite Hrest. reflexivity.
  - unfold Js.doubleQuotes. simpl flat_map. fold (Js.doubleQuotes f).
    destruct (Ascii.eqb c Ch.quote) eqn:Eq.
    + apply Ascii.eqb_eq in Eq. subst c.
      simpl app. simpl scanText.
      change (Ascii.eqb Ch.quote Ch.nl) with false.
      change (Ascii.eqb Ch.quote Ch.quote) with true. cbv iota.
      simpl snd. simpl inQuotes. simpl andb. cbv iota.
      simpl fst. simpl currentRow. simpl currentField.
      rewrite IH by exact Hrest. rewrite <- app_assoc. reflexivity.
    + simpl app. simpl scanText. rewrite Eq.
      destruct (Ascii.eqb c Ch.nl) eqn:En.
      * apply Ascii.eqb_eq in En. subst c.
        unfold endOfLine. simpl inQuotes. simpl negb. cbv iota.
        simpl currentRow. simpl currentField.
        rewrite IH by exact Hrest. rewrite <- app_assoc. reflexivity.
      * simpl snd. simpl inQuotes. simpl negb. rewrite andb_false_r.
        simpl fst. simpl currentRow. simpl currentField.
        rewrite IH by exact Hrest. rewrite <- app_assoc. reflexivity.
Qed.

(** One serialized field, up to the separator that follows it. *)
Lemma scanText_field (f rest : str) (rows : list (list str)) (row : list str) :
  Js.startsWithChar Ch.quote rest = false ->
  scanText (serializeField f ++ rest) (rows, mkScan row [] false)
  = scanText rest (rows, mkScan row f false).
Proof.
  intros Hrest. unfold serializeField.
  destruct (Js.includesChar Ch.comma f || Js.includesChar Ch.quote f
            || Js.includesChar Ch.nl f) eqn:E.
  - rewrite <- !app_assoc. simpl app.
    pose proof (scanText_quoted f rest rows row [] Hrest) as Hquoted.
    change ([] ++ f) with f in Hquoted. rewrite <- Hquoted.
    simpl scanText.
    change (Ascii.eqb Ch.quote Ch.nl) with false.
    change (Ascii.eqb Ch.quote Ch.quote) with true. cbv iota.
    simpl snd. simpl inQuotes. simpl andb. simpl negb. simpl fst.
    simpl currentRow. simpl currentField.
    destruct (Js.doubleQuotes f ++ Ch.quote :: rest); reflexivity.
  - apply orb_false_iff in E. destruct E as [E En].
    apply orb_false_iff in E. destruct E as [Ec Eq].
    apply includesChar_false in Ec, Eq, En.
    apply (scanText_plain f Ec Eq En rest rows row []).
Qed.

Lemma rowText_cons (f g : str) (fs : list str) :
  rowText (f :: g :: fs) = serializeField f ++ [Ch.comma] ++ rowText (g :: fs).
Proof. reflexivity. Qed.

(** One serialized row, up to what follows it: the fields but the last
    are pushed, the last is pending. *)
Lemma scanText_row (fields : list str) :
  fields <> [] ->
  forall rest rows row,
    Js.startsWithChar Ch.quote rest = false ->
    scanText (rowText fields ++ rest) (rows, mkScan row [] false)
    = scanText rest
        (rows, mkScan (row ++ map Js.trim (removelast fields)) (last fields []) false).
Proof.
  induction fields as [ | f fs IH]; intros Hne rest rows row Hrest; [contradiction | ].
  destruct fs as [ | g fs].
  - change (rowText [f]) with (serializeField f).
    rewrite scanText_field by exact Hrest. simpl. rewrite app_nil_r. reflexivity.
  - rewrite rowText_cons, <- !app_assoc.
    rewrite scanText_field by reflexivity.
    simpl app at 1. simpl scanText.
    simpl snd. simpl inQuotes. simpl fst. simpl currentRow. simpl currentField.
    rewrite (IH ltac:(discriminate) rest rows (row ++ [Js.trim f]) Hrest).
    rewrite <- app_assoc. reflexivity.
Qed.

Lemma trimmedRow_map (row : list str) : trimmedRow row -> map Js.trim row = row.
Proof.
  intros H. rewrite <- (map_id row) at 2.
  apply map_ext_in. intros f Hf. unfold trimmedRow in H.
  rewrite Forall_forall in H. apply H. exact Hf.
Qed.

(** The end of a line after a serialized row. *)
Lemma endOfLine_row (fields : list str) (rows : list (list str)) :
  keepRow fields = true -> trimmedRow fields ->
  endOfLine (rows, mkScan ([] ++ map Js.trim (removelast fields)) (last fields []) false)
  = (rows ++ [fields], emptyScan).
Proof.
  intros Hkeep Htrim.
  assert (fields <> []) as Hne by (intros ->; discriminate).
  unfold endOfLine. simpl inQuotes. simpl negb. cbv iota.
  rewrite pushRow_pushPending. simpl currentRow. simpl currentField.
  change [Js.trim (last fields [])] with (map Js.trim [last fields []]).
  rewrite <- map_app, <- app_removelast_last by exact Hne.
  rewrite (trimmedRow_map fields Htrim), pushRow_app, Hkeep. reflexivity.
Qed.

Lemma arrayToCSV_cons (r r2 : list str) (rs : list (list str)) :
  arrayToCSV (r :: r2 :: rs) = rowText r ++ [Ch.nl] ++ arrayToCSV (r2 :: rs).
Proof. reflexivity. Qed.

Lemma scanText_nl (text : str) (acc : list (list str) * Scan) :
  scanText (Ch.nl :: text) acc = scanText text (endOfLine acc).
Proof. reflexivity. Qed.

Lemma scanText_rows (rowsL : list (list str)) :
  readableRows rowsL ->
  forall rows,
    endOfLine (scanText (arrayToCSV rowsL) (rows, emptyScan)) = (rows ++ rowsL, emptyScan).
Proof.
  induction 1 as [ | r rs [Hkeep Htrim] Hrs IH]; intros rows.
  - simpl. rewrite app_nil_r. reflexivity.
  - assert (r <> []) as Hne by (intros ->; discriminate).
    destruct rs as [ | r2 rs].
    + change (arrayToCSV [r]) with (rowText r).
      rewrite <- (app_nil_r (rowText r)).
      unfold emptyScan. rewrite (scanText_row r Hne [] rows [] eq_refl).
      simpl scanText. apply endOfLine_row; assumption.
    + rewrite arrayToCSV_cons.
      unfold emptyScan at 1.
      rewrite (scanText_row r Hne ([Ch.nl] ++ arrayToCSV (r2 :: rs)) rows [] eq_refl).
      change ([Ch.nl] ++ arrayToCSV (r2 :: rs)) with (Ch.nl :: arrayToCSV (r2 :: rs)).
      rewrite scanText_nl.
      rewrite (endOfLine_row r rows Hkeep Htrim).
      rewrite IH, <- app_assoc. reflexivity.
Qed.

Lemma parseCSV_readableRows (rows : list (list str)) :
  readableRows rows -> parseCSV (arrayToCSV rows) = rows.
Proof.
  intros H. rewrite parseCSV_scanText, <- flush_endOfLine.
  rewrite (scanText_rows rows H []). reflexivity.
Qed.

(** X4: a list of rows that each have a non-empty field and only trimmed
    fields survives [arrayToCSV] followed by [parseCSV] unchanged, also
    when fields hold commas, quotes or line feeds. *)
Theorem parseCSV_arrayToCSV (rows : list (list str)) :
  readableRows rows -> parseCSV (arrayToCSV rows) = rows.
Proof. apply parseCSV_readableRows. Qed.

Lemma parseCSV_arrayToCSV_witness :
  parseCSV
    (arrayToCSV
       [[lit "name"; lit "note"];
        [lit "Ada, Countess"; lit "said " ++ [Ch.quote] ++ lit "hi" ++ [Ch.quote]];
        [[]; lit "two" ++ [Ch.nl] ++ lit "lines"]])
  = [[lit "name"; lit "note"];
        [lit "Ada, Countess"; lit "said " ++ [Ch.quote] ++ lit "hi" ++ [Ch.quote]];
        [[]; lit "two" ++ [Ch.nl] ++ lit "lines"]].
Proof.
  apply parseCSV_arrayToCSV.
  unfold readableRows, trimmedRow. repeat constructor.
Defined.

(** X5: writing the rows of any text with [arrayToCSV] and reading them
    again with [parseCSV] gives the same rows. *)
Theorem parseCSV_arrayToCSV_parseCSV (csvText : str) :
  parseCSV (arrayToCSV (parseCSV csvText)) = parseCSV csvText.
Proof.
  apply parseCSV_readableRows. unfold readableRows.
  pose proof (parseCSV_kept csvText) as Hk. unfold kept in Hk.
  pose proof (parseCSV_trimmedRows csvText) as Ht.
  rewrite Forall_forall in *. intros row Hrow. split; [apply Hk | apply Ht]; exact Hrow.
Qed.

(** X6: on a text without any double quote, [parseCSV] is: split at line
    feeds, split each line at commas, trim each piece, and keep the lines
    that have a non-empty piece. *)
Theorem parseCSV_without_quotes (csvText : str) :
  ~ In Ch.quote csvText ->
  parseCSV csvText
  = filter keepRow
      (map (fun line => map Js.trim (Js.split Ch.comma line)) (Js.split Ch.nl csvText)).
Proof. apply parseCSV_unquoted. Qed.

Lemma parseCSV_without_quotes_witness :
  parseCSV (lit " a ,b" ++ [Ch.nl] ++ lit " , " ++ [Ch.nl] ++ lit "c")
  = [[lit "a"; lit "b"]; [lit "c"]].
Proof.
  rewrite parseCSV_without_quotes.
  - reflexivity.
  - intros H. vm_compute in H. intuition discriminate.
Defined.

(** X7: a text made of commas and white space only, line feeds included,
    has no row at all. *)
Theorem parseCSV_only_separators (csvText : str) :
  Forall (fun c => Ch.isSpace c = true \/ c = Ch.comma) csvText ->
  parseCSV csvText = [].
Proof.
  intros H. apply parseCSV_commas_and_space.
  apply forallb_forall. rewrite Forall_forall in H. intros c Hc.
  destruct (H c Hc) as [Hs | ->]; [rewrite Hs; reflexivity | ].
  apply orb_true_iff. right. apply Ascii.eqb_refl.
Qed.

Lemma parseCSV_only_separators_witness :
  parseCSV (lit ", ," ++ [Ch.nl] ++ lit "  ,") = [].
Proof.
  apply parseCSV_only_separators.
  repeat constructor; (left; reflexivity) || (right; reflexivity).
Defined.

(** ** FieldCleaner: what it removes *)

Lemma strippedFrom_refl (s : str) : strippedFrom s s.
Proof. exists [], []. rewrite app_nil_r. repeat split; constructor. Qed.

Lemma strippedFrom_trans (s t u : str) :
  strippedFrom s t -> strippedFrom t u -> strippedFrom s u.
Proof.
  intros (a & b & -> & Ha & Hb) (a' & b' & -> & Ha' & Hb').
  exists (a ++ a'), (b' ++ b). repeat split.
  - rewrite <- !app_assoc. reflexivity.
  - apply Forall_app. split; assumption.
  - apply Forall_app. split; assumption.
Qed.

Lemma dropWhile_prefix (p : ascii -> bool) (s : str) :
  exists a, s = a ++ Js.dropWhile p s /\ forallb p a = true.
Proof.
  induction s as [ | c r (a & Ha & Hp)]; [exists []; auto | ].
  simpl. destruct (p c) eqn:E.
  - exists (c :: a). split; [simpl; f_equal; exact Ha | simpl; rewrite E; exact Hp].
  - exists []. auto.
Qed.

Lemma spaces_strippable (a : str) : forallb Ch.isSpace a = true -> Forall strippable a.
Proof.
  intros H. rewrite forallb_forall in H. apply Forall_forall.
  intros c Hc. left. apply H. exact Hc.
Qed.

Lemma trim_strippedFrom (s : str) : strippedFrom s (Js.trim s).
Proof.
  unfold Js.trim, Js.trimEnd, Js.trimStart.
  destruct (dropWhile_prefix Ch.isSpace s) as (a & Ha & Hpa).
  destruct (dropWhile_prefix Ch.isSpace (rev (Js.dropWhile Ch.isSpace s))) as (b & Hb & Hpb).
  exists a, (rev b). repeat split.
  - rewrite Ha at 1. f_equal.
    rewrite <- (rev_involutive (Js.dropWhile Ch.isSpace s)) at 1.
    rewrite Hb at 1. apply rev_app_distr.
  - apply spaces_strippable. exact Hpa.
  - apply spaces_strippable. rewrite forallb_forall in *.
    intros c Hc. apply Hpb. apply in_rev. exact Hc.
Qed.

Lemma startsWithChar_cons (c : ascii) (s : str) :
  Js.startsWithChar c s = true -> s = c :: tl s.
Proof.
  destruct s as [ | d r]; simpl; [discriminate | ].
  intros H. apply Ascii.eqb_eq in H. subst d. reflexivity.
Qed.

Lemma endsWithChar_snoc (c : ascii) (s : str) :
  Js.endsWithChar c s = true -> s = removelast s ++ [c].
Proof.
  unfold Js.endsWithChar. intros H.
  destruct (rev s) as [ | d l] eqn:E; [discriminate | ].
  simpl in H. apply Ascii.eqb_eq in H. subst d.
  assert (s = rev l ++ [c]) as -> by (rewrite <- (rev_involutive s), E; reflexivity).
  rewrite removelast_last. reflexivity.
Qed.

Lemma comma_strippable : Forall strippable [Ch.comma].
Proof. constructor; [right; left; reflexivity | constructor]. Qed.

Lemma quote_strippable : Forall strippable [Ch.quote].
Proof. constructor; [right; right; reflexivity | constructor]. Qed.

Lemma sliceFrom1_strippedFrom (c : ascii) (s : str) :
  strippable c -> Js.startsWithChar c s = true -> strippedFrom s (Js.sliceFrom1 s).
Proof.
  intros Hc H. exists [c], []. rewrite app_nil_r. repeat split.
  - apply (startsWithChar_cons c s H).
  - constructor; [exact Hc | constructor].
  - constructor.
Qed.

Lemma sliceTo_1_strippedFrom (c : ascii) (s : str) :
  strippable c -> Js.endsWithChar c s = true -> strippedFrom s (Js.sliceTo_1 s).
Proof.
  intros Hc H. exists [], [c]. repeat split.
  - apply (endsWithChar_snoc c s H).
  - constructor.
  - constructor; [exact Hc | constructor].
Qed.

Lemma cleanField_strippedFrom (field : str) :
  exists before after,
    field = before ++ cleanField field ++ after
    /\ Forall strippable before /\ Forall strippable after.
Proof.
  change (strippedFrom field (cleanField field)).
  unfold cleanField.
  set (t0 := Js.trim field).
  assert (strippedFrom field t0) as H0 by apply trim_strippedFrom.
  set (t := if Js.startsWithChar Ch.comma t0 then Js.trim (Js.sliceFrom1 t0) else t0).
  assert (strippedFrom field t) as Ht.
  { unfold t. destruct (Js.startsWithChar Ch.comma t0) eqn:E; [ | exact H0].
    eapply strippedFrom_trans; [exact H0 | ].
    eapply strippedFrom_trans; [ | apply trim_strippedFrom].
    apply (sliceFrom1_strippedFrom Ch.comma); [right; left; reflexivity | exact E]. }
  clearbody t. clear H0. clearbody t0. cbv zeta.
  destruct (Js.startsWithChar Ch.quote t && Js.endsWithChar Ch.quote t
            && (1 <? length t)) eqn:Ewrap.
  - apply andb_true_iff in Ewrap. destruct Ewrap as [Ewrap Hlen].
    apply andb_true_iff in Ewrap. destruct Ewrap as [Es Ee].
    assert (strippedFrom field (Js.slice1_1 t)) as Hu.
    { eapply strippedFrom_trans; [exact Ht | ]. unfold Js.slice1_1.
      eapply strippedFrom_trans.
      - apply (sliceFrom1_strippedFrom Ch.quote);
          [right; right; reflexivity | exact Es].
      - apply (sliceTo_1_strippedFrom Ch.quote); [right; right; reflexivity | ].
        unfold Js.sliceFrom1, Js.endsWithChar in *.
        destruct t as [ | c [ | d r]]; try discriminate.
        simpl tl. simpl rev in *.
        destruct (rev r ++ [d]) as [ | x xs] eqn:Ex.
        + destruct (rev r); discriminate.
        + exact Ee. }
    destruct (Js.endsWithChar Ch.comma (Js.slice1_1 t)) eqn:Ecomma.
    + eapply strippedFrom_trans; [exact Hu | ].
      apply (sliceTo_1_strippedFrom Ch.comma); [right; left; reflexivity | exact Ecomma].
    + destruct (negb _); exact Hu.
  - destruct (Js.endsWithChar Ch.comma t) eqn:Ecomma; [ | exact Ht].
    eapply strippedFrom_trans; [exact Ht | ].
    eapply strippedFrom_trans; [ | apply trim_strippedFrom].
    apply (sliceTo_1_strippedFrom Ch.comma); [right; left; reflexivity | exact Ecomma].
Qed.

(** X8: [cleanField] only removes characters from the two ends of the
    field, and only white space, commas and double quotes; what is left
    is an unbroken part of the field. *)
Theorem cleanField_strips_ends (field : str) :
  exists before after,
    field = before ++ cleanField field ++ after
    /\ Forall strippable before /\ Forall strippable after.
Proof. apply cleanField_strippedFrom. Qed.

(** X9: a field without comma and without double quote is only trimmed. *)
Theorem cleanField_plain (field : str) :
  ~ In Ch.comma field -> ~ In Ch.quote field -> cleanField field = Js.trim field.
Proof.
  intros Hc Hq. apply cleanField_without_repair, needsNoRepair_plain; assumption.
Qed.

Lemma cleanField_plain_witness :
  cleanField (lit "  Ada Lovelace ") = lit "Ada Lovelace".
Proof.
  rewrite cleanField_plain.
  - reflexivity.
  - intros H. vm_compute in H. intuition discriminate.
  - intros H. vm_compute in H. intuition discriminate.
Defined.

(** *** Where a second pass changes nothing *)

Lemma length_trim_le (s : str) : length (Js.trim s) <= length s.
Proof.
  destruct (trim_strippedFrom s) as (a & b & E & _).
  apply (f_equal (@length ascii)) in E. rewrite !length_app in E. lia.
Qed.

Lemma trim_length_eq (s : str) : length (Js.trim s) = length s -> Js.trim s = s.
Proof.
  intros H. destruct (trim_strippedFrom s) as (a & b & E & _).
  pose proof (f_equal (@length ascii) E) as L. rewrite !length_app in L.
  destruct a; [ | simpl in L; lia]. destruct b; [ | simpl in L; lia].
  rewrite app_nil_r in E. symmetry. exact E.
Qed.

Lemma length_removelast_le (x : str) : length (removelast x) <= length x.
Proof.
  induction x as [ | c r IH]; [simpl; lia | ].
  destruct r; [simpl; lia | ]. simpl in *. lia.
Qed.

Lemma length_removelast_lt (x : str) : x <> [] -> length (removelast x) < length x.
Proof.
  induction x as [ | c r IH]; intros H; [contradiction | ].
  destruct r as [ | d r]; [simpl; lia | ].
  assert (d :: r <> []) as Hne by discriminate. specialize (IH Hne). simpl in *. lia.
Qed.

Lemma length_tl_le (x : str) : length (tl x) <= length x.
Proof. destruct x; simpl; lia. Qed.

Lemma length_tl_lt (x : str) : x <> [] -> length (tl x) < length x.
Proof. destruct x; [contradiction | simpl; lia]. Qed.

Lemma startsWithChar_nonEmpty (c : ascii) (s : str) :
  Js.startsWithChar c s = true -> s <> [].
Proof. intros H ->. discriminate. Qed.

Lemma endsWithChar_nonEmpty (c : ascii) (s : str) :
  Js.endsWithChar c s = true -> s <> [].
Proof. intros H ->. discriminate. Qed.

(** The fields that [cleanField] leaves as they are: the trimmed fields on
    which no repair fires.  Every repair and every trimming makes the field
    shorter. *)
Lemma cleanField_fixed (g : str) :
  cleanField g = g <-> Js.trim g = g /\ needsNoRepair g.
Proof.
  split.
  - intros H.
    assert (length (cleanField g) = length g) as Hlen by (rewrite H; reflexivity).
    clear H. unfold cleanField in Hlen. cbv zeta in Hlen.
    pose proof (length_trim_le g) as L0.
    unfold needsNoRepair. cbv zeta.
    set (t0 := Js.trim g) in *.
    unfold Js.sliceFrom1, Js.sliceTo_1, Js.slice1_1 in Hlen.
    destruct (Js.startsWithChar Ch.comma t0) eqn:E1.
    + exfalso.
      pose proof (length_tl_lt t0 (startsWithChar_nonEmpty _ _ E1)) as L1.
      pose proof (length_trim_le (tl t0)) as L2.
      set (t1 := Js.trim (tl t0)) in *.
      pose proof (length_tl_le t1) as L3.
      pose proof (length_removelast_le (tl t1)) as L4.
      pose proof (length_removelast_le (removelast (tl t1))) as L5.
      pose proof (length_removelast_le t1) as L6.
      pose proof (length_trim_le (removelast t1)) as L7.
      destruct (Js.startsWithChar Ch.quote t1 && Js.endsWithChar Ch.quote t1
                && (1 <? length t1)).
      * destruct (Js.endsWithChar Ch.comma (removelast (tl t1))); [lia | ].
        destruct (negb _); lia.
      * destruct (Js.endsWithChar Ch.comma t1); lia.
    + destruct (Js.startsWithChar Ch.quote t0 && Js.endsWithChar Ch.quote t0
                && (1 <? length t0)) eqn:E2.
      * exfalso.
        apply andb_true_iff in E2. destruct E2 as [E2 _].
        apply andb_true_iff in E2. destruct E2 as [E2 _].
        pose proof (length_tl_lt t0 (startsWithChar_nonEmpty _ _ E2)) as L1.
        pose proof (length_removelast_le (tl t0)) as L4.
        pose proof (length_removelast_le (removelast (tl t0))) as L5.
        destruct (Js.endsWithChar Ch.comma (removelast (tl t0))); [lia | ].
        destruct (negb _); lia.
      * destruct (Js.endsWithChar Ch.comma t0) eqn:E3.
        -- exfalso.
           pose proof (length_removelast_lt t0 (endsWithChar_nonEmpty _ _ E3)) as L6.
           pose proof (length_trim_le (removelast t0)) as L7. lia.
        -- split; [apply trim_length_eq; exact Hlen | auto].
  - intros [Htrim Hrepair].
    rewrite (cleanField_without_repair g Hrepair). exact Htrim.
Qed.

(** C3 (as amended): a second pass of [cleanField] changes nothing exactly
    on the fields whose cleaned value has no white space at either end,
    neither starts nor ends with a comma and is not wrapped in a pair of
    double quotes: the fields that the first pass repairs completely. *)
Theorem cleanField_idempotent_exactly (field : str) :
  cleanField (cleanField field) = cleanField field
  <-> Js.trim (cleanField field) = cleanField field
      /\ needsNoRepair (cleanField field).
Proof. apply cleanField_fixed. Qed.

Lemma cleanField_idempotent_exactly_witness :
  cleanField (cleanField ([Ch.quote] ++ lit "Lovelace, Ada," ++ [Ch.quote]))
  = cleanField ([Ch.quote] ++ lit "Lovelace, Ada," ++ [Ch.quote]).
Proof.
  destruct (cleanField_idempotent_exactly ([Ch.quote] ++ lit "Lovelace, Ada," ++ [Ch.quote]))
    as [_ H].
  apply H. unfold needsNoRepair. cbv zeta. repeat split; reflexivity.
Defined.

(** ** Validators *)

Lemma trim_decompose (s : str) :
  exists a b, s = a ++ Js.trim s ++ b
              /\ forallb Ch.isSpace a = true /\ forallb Ch.isSpace b = true.
Proof.
  unfold Js.trim, Js.trimEnd, Js.trimStart.
  destruct (dropWhile_prefix Ch.isSpace s) as (a & Ha & Hpa).
  destruct (dropWhile_prefix Ch.isSpace (rev (Js.dropWhile Ch.isSpace s))) as (b & Hb & Hpb).
  exists a, (rev b). repeat split.
  - rewrite Ha at 1. f_equal.
    rewrite <- (rev_involutive (Js.dropWhile Ch.isSpace s)) at 1.
    rewrite Hb at 1. apply rev_app_distr.
  - exact Hpa.
  - rewrite forallb_forall in *. intros c Hc. apply Hpb. apply in_rev. exact Hc.
Qed.

Lemma trim_nonEmpty (s : str) : Js.trim s <> [] -> s <> [].
Proof. intros H ->. apply H. reflexivity. Qed.

(** *** Phone numbers *)

Lemma space_isPhoneFormatting (c : ascii) :
  Ch.isSpace c = true -> isPhoneFormatting c = true.
Proof. intros H. unfold isPhoneFormatting. rewrite H. reflexivity. Qed.

Lemma digit_not_formatting (c : ascii) :
  Ch.isDigit c = true -> isPhoneFormatting c = false.
Proof.
  destruct c as [[] [] [] [] [] [] [] []]; vm_compute; intros H;
    first [reflexivity | discriminate H].
Qed.

Lemma filter_spaces (a : str) :
  forallb Ch.isSpace a = true -> filter (fun c => negb (isPhoneFormatting c)) a = [].
Proof.
  induction a as [ | c r IH]; simpl; [reflexivity | ].
  intros H. apply andb_true_iff in H. destruct H as [Hc Hr].
  rewrite (space_isPhoneFormatting c Hc). simpl. apply IH. exact Hr.
Qed.

(** Trimming does not change what is left once the formatting characters
    are removed. *)
Lemma digitsOnly_trim (phone : str) :
  filter (fun c => negb (isPhoneFormatting c)) (Js.trim phone)
  = filter (fun c => negb (isPhoneFormatting c)) phone.
Proof.
  destruct (trim_decompose phone) as (a & b & H & Ha & Hb).
  rewrite H at 2. rewrite !filter_app, (filter_spaces a Ha), (filter_spaces b Hb).
  rewrite app_nil_r. reflexivity.
Qed.

Lemma isValidPhoneNumber_digitsOnly (phone : str) :
  let digitsOnly := filter (fun c => negb (isPhoneFormatting c)) phone in
  isValidPhoneNumber phone
  = forallb Ch.isDigit digitsOnly && (10 <=? length digitsOnly) && (length digitsOnly <=? 15).
Proof.
  cbv zeta. unfold isValidPhoneNumber. rewrite digitsOnly_trim.
  set (d := filter (fun c => negb (isPhoneFormatting c)) phone).
  destruct (negb (Js.nonEmpty phone) || (length (Js.trim phone) =? 0)) eqn:E.
  - assert (d = []) as ->; [ | reflexivity].
    unfold d. apply orb_true_iff in E. destruct E as [E | E].
    + destruct phone; [reflexivity | discriminate].
    + rewrite <- digitsOnly_trim. apply Nat.eqb_eq in E.
      destruct (Js.trim phone); [reflexivity | discriminate].
  - rewrite !Nat.ltb_antisym.
    destruct d as [ | c r]; [reflexivity | ].
    simpl Js.nonEmpty.
    destruct (forallb Ch.isDigit (c :: r)); [ | reflexivity].
    destruct (10 <=? length (c :: r)); destruct (length (c :: r) <=? 15); reflexivity.
Qed.

Lemma isValidPhoneNumber_shape (phone : str) :
  isValidPhoneNumber phone = true
  <-> Forall (fun c => Ch.isDigit c = true \/ isPhoneFormatting c = true) phone
      /\ 10 <= length (filter Ch.isDigit phone) <= 15.
Proof.
  rewrite isValidPhoneNumber_digitsOnly. cbv zeta.
  assert (forallb Ch.isDigit (filter (fun c => negb (isPhoneFormatting c)) phone) = true
          <-> Forall (fun c => Ch.isDigit c = true \/ isPhoneFormatting c = true) phone)
    as Hall.
  { rewrite forallb_forall, Forall_forall. split.
    - intros H c Hc. destruct (isPhoneFormatting c) eqn:E; [right; reflexivity | left].
      apply H. apply filter_In. split; [exact Hc | rewrite E; reflexivity].
    - intros H c Hc. apply filter_In in Hc. destruct Hc as [Hc Hf].
      destruct (H c Hc) as [Hd | Hd]; [exact Hd | rewrite Hd in Hf; discriminate]. }
  assert (Forall (fun c => Ch.isDigit c = true \/ isPhoneFormatting c = true) phone ->
          filter (fun c => negb (isPhoneFormatting c)) phone = filter Ch.isDigit phone)
    as Hfilter.
  { intros H. rewrite Forall_forall in H. apply filter_ext_in. intros c Hc.
    destruct (H c Hc) as [Hd | Hf].
    - rewrite Hd, (digit_not_formatting c Hd). reflexivity.
    - rewrite Hf. destruct (Ch.isDigit c) eqn:Hd; [ | reflexivity].
      rewrite (digit_not_formatting c Hd) in Hf. discriminate. }
  split.
  - intros H. apply andb_true_iff in H. destruct H as [H H15].
    apply andb_true_iff in H. destruct H as [Hd H10].
    apply Hall in Hd. rewrite (Hfilter Hd) in H10, H15.
    apply Nat.leb_le in H10, H15. auto.
  - intros [Hd [H10 H15]]. rewrite (Hfilter Hd).
    apply andb_true_iff. split; [apply andb_true_iff; split | ].
    + rewrite <- (Hfilter Hd). apply Hall. exact Hd.
    + apply Nat.leb_le. exact H10.
    + apply Nat.leb_le. exact H15.
Qed.

(** X10: a phone number is valid exactly when each of its characters is a
    digit or one of the formatting characters (white space, hyphen,
    parentheses, plus, dot) and it has between 10 and 15 digits; white
    space around it plays no part. *)
Theorem isValidPhoneNumber_iff (phone : str) :
  isValidPhoneNumber phone = true
  <-> Forall (fun c => Ch.isDigit c = true \/ isPhoneFormatting c = true) phone
      /\ 10 <= length (filter Ch.isDigit phone) <= 15.
Proof. apply isValidPhoneNumber_shape. Qed.

(** *** Email addresses *)

Lemma split_app_sep (sep : ascii) (l r : str) :
  ~ In sep l -> Js.split sep (l ++ sep :: r) = l :: Js.split sep r.
Proof.
  induction l as [ | c l IH]; intros H.
  - simpl. rewrite Ascii.eqb_refl. reflexivity.
  - simpl. destruct (Ascii.eqb c sep) eqn:E.
    + apply Ascii.eqb_eq in E. subst c. exfalso. apply H. left. reflexivity.
    + rewrite IH by (intros Hin; apply H; right; exact Hin). reflexivity.
Qed.

Lemma split_absent (sep : ascii) (d : str) : ~ In sep d -> Js.split sep d = [d].
Proof.
  induction d as [ | c d IH]; intros H; [reflexivity | ].
  simpl. destruct (Ascii.eqb c sep) eqn:E.
  - apply Ascii.eqb_eq in E. subst c. exfalso. apply H. left. reflexivity.
  - rewrite IH by (intros Hin; apply H; right; exact Hin). reflexivity.
Qed.

Lemma length_split (sep : ascii) (s : str) :
  length (Js.split sep s) = S (count_occ ascii_dec s sep).
Proof.
  induction s as [ | c r IH]; [reflexivity | ].
  simpl. destruct (ascii_dec c sep) as [-> | Hne].
  - rewrite Ascii.eqb_refl. simpl. rewrite IH. reflexivity.
  - destruct (Ascii.eqb c sep) eqn:E; [apply Ascii.eqb_eq in E; contradiction | ].
    pose proof (split_not_nil sep r) as Hnil.
    destruct (Js.split sep r); [contradiction | exact IH].
Qed.

Lemma app_sep_unique (x : ascii) (a l r r' : str) :
  ~ In x a -> ~ In x l -> a ++ x :: r = l ++ x :: r' -> a = l /\ r = r'.
Proof.
  revert l. induction a as [ | c a IH]; intros l Ha Hl H.
  - destruct l as [ | d l]; simpl in H.
    + injection H as ->. auto.
    + injection H as <- _. exfalso. apply Hl. left. reflexivity.
  - destruct l as [ | d l]; simpl in H.
    + injection H as -> _. exfalso. apply Ha. left. reflexivity.
    + injection H as -> H.
      destruct (IH l) as [-> ->]; auto.
      * intros Hin. apply Ha. right. exact Hin.
      * intros Hin. apply Hl. right. exact Hin.
Qed.

Lemma plusThen_intro (cls : ascii -> bool) (k : str -> bool) (a b : str) :
  a <> [] -> forallb cls a = true -> k b = true -> Re.plusThen cls k (a ++ b) = true.
Proof.
  intros Hne Ha Hk. induction a as [ | c a IH]; [contradiction | ].
  simpl in *. apply andb_true_iff in Ha. destruct Ha as [Hc Ha]. rewrite Hc. simpl.
  destruct a as [ | d a].
  - simpl. rewrite Hk. reflexivity.
  - rewrite IH; [apply orb_true_r | discriminate | exact Ha].
Qed.

Lemma plusThen_elim (cls : ascii -> bool) (k : str -> bool) (s : str) :
  Re.plusThen cls k s = true ->
  exists a b, s = a ++ b /\ a <> [] /\ forallb cls a = true /\ k b = true.
Proof.
  induction s as [ | c r IH]; simpl; [discriminate | ].
  intros H. apply andb_true_iff in H. destruct H as [Hc H].
  apply orb_true_iff in H. destruct H as [Hk | Hr].
  - exists [c], r. repeat split; [discriminate | simpl; rewrite Hc; reflexivity | exact Hk].
  - destruct (IH Hr) as (a & b & -> & _ & Ha & Hk).
    exists (c :: a), b. repeat split; [discriminate | simpl; rewrite Hc; exact Ha | exact Hk].
Qed.

Lemma charThen_elim (c : ascii) (k : str -> bool) (s : str) :
  Re.charThen c k s = true -> exists r, s = c :: r /\ k r = true.
Proof.
  destruct s as [ | d r]; simpl; [discriminate | ].
  intros H. apply andb_true_iff in H. destruct H as [Hd Hk].
  apply Ascii.eqb_eq in Hd. subst d. exists r. auto.
Qed.

(** What the pattern of [emailRegex] accepts. *)
Lemma emailRegex_elim (s : str) :
  emailRegex s = true ->
  exists a b c,
    s = a ++ Ch.at_ :: b ++ Ch.dot :: c
    /\ a <> [] /\ b <> [] /\ c <> []
    /\ forallb Re.notSpaceNorAt a = true
    /\ forallb Re.notSpaceNorAt b = true
    /\ forallb Re.notSpaceNorAt c = true.
Proof.
  unfold emailRegex. intros H.
  apply plusThen_elim in H. destruct H as (a & s1 & -> & Ha & Hca & H).
  apply charThen_elim in H. destruct H as (s2 & -> & H).
  apply plusThen_elim in H. destruct H as (b & s3 & -> & Hb & Hcb & H).
  apply charThen_elim in H. destruct H as (s4 & -> & H).
  apply plusThen_elim in H. destruct H as (c & s5 & -> & Hc & Hcc & H).
  destruct s5; [ | discriminate]. rewrite app_nil_r.
  exists a, b, c. repeat split; assumption.
Qed.

Lemma emailRegex_intro (a b c : str) :
  a <> [] -> b <> [] -> c <> [] ->
  forallb Re.notSpaceNorAt a = true ->
  forallb Re.notSpaceNorAt b = true ->
  forallb Re.notSpaceNorAt c = true ->
  emailRegex (a ++ Ch.at_ :: b ++ Ch.dot :: c) = true.
Proof.
  intros Ha Hb Hc Hca Hcb Hcc. unfold emailRegex.
  apply plusThen_intro; [exact Ha | exact Hca | ].
  simpl Re.charThen. try rewrite Ascii.eqb_refl. simpl andb.
  apply plusThen_intro; [exact Hb | exact Hcb | ].
  simpl Re.charThen. try rewrite Ascii.eqb_refl. simpl andb.
  rewrite <- (app_nil_r c).
  apply plusThen_intro; [exact Hc | exact Hcc | reflexivity].
Qed.

Lemma notSpaceNorAt_no_at (s : str) :
  forallb Re.notSpaceNorAt s = true -> ~ In Ch.at_ s.
Proof.
  intros H Hin. rewrite forallb_forall in H. apply H in Hin. discriminate.
Qed.

Lemma count_occ_absent (s : str) (x : ascii) : ~ In x s -> count_occ ascii_dec s x = 0.
Proof. apply count_occ_not_In. Qed.

Lemma isValidEmail_shape (email : str) :
  isValidEmail email = true
  <-> exists localPart domain,
        Js.trim email = localPart ++ [Ch.at_] ++ domain
        /\ localPart <> []
        /\ forallb Re.notSpaceNorAt (localPart ++ domain) = true
        /\ In Ch.dot domain
        /\ Js.startsWithChar Ch.dot domain = false
        /\ Js.endsWithChar Ch.dot domain = false.
Proof.
  split.
  - unfold isValidEmail.
    destruct (negb (Js.nonEmpty email) || (length (Js.trim email) =? 0)); [discriminate | ].
    set (t := Js.trim email).
    destruct (count_occ ascii_dec t Ch.at_ =? 1) eqn:Ecount; simpl negb; cbv iota;
      [ | discriminate].
    apply Nat.eqb_eq in Ecount.
    pose proof (length_split Ch.at_ t) as Hlen. rewrite Ecount in Hlen.
    pose proof (join_split Ch.at_ t) as Hjoin.
    pose proof (split_no_sep Ch.at_ t) as Hnosep.
    destruct (Js.split Ch.at_ t) as [ | l [ | d [ | x xs]]]; try discriminate.
    clear Hlen. change (Js.join [Ch.at_] [l; d]) with (l ++ [Ch.at_] ++ d) in Hjoin.
    destruct (negb (Js.nonEmpty l) || negb (Js.nonEmpty d)) eqn:Ene; [discriminate | ].
    destruct (Js.includesChar Ch.dot d) eqn:Edot; simpl negb; cbv iota; [ | discriminate].
    destruct (Js.startsWithChar Ch.dot d || Js.endsWithChar Ch.dot d) eqn:Eends;
      [discriminate | ].
    destruct (emailRegex t) eqn:Ere; simpl negb; cbv iota; [ | discriminate].
    intros _. exists l, d.
    apply orb_false_iff in Ene. destruct Ene as [Hl _].
    apply orb_false_iff in Eends. destruct Eends as [Hs He].
    repeat split; auto.
    + destruct l; [discriminate | discriminate].
    + apply emailRegex_elim in Ere.
      destruct Ere as (a & b & c & Ht & _ & _ & _ & Hca & Hcb & Hcc).
      rewrite <- Hjoin in Ht. simpl app in Ht.
      destruct (app_sep_unique Ch.at_ l a d (b ++ Ch.dot :: c)) as [-> ->].
      * apply Hnosep. left. reflexivity.
      * apply notSpaceNorAt_no_at. exact Hca.
      * exact Ht.
      * rewrite !forallb_app. simpl. rewrite Hca, Hcb, Hcc. reflexivity.
    + unfold Js.includesChar in Edot. apply existsb_exists in Edot.
      destruct Edot as [x [Hx Ex]]. apply Ascii.eqb_eq in Ex. subst x. exact Hx.
  - intros (l & d & Ht & Hl & Hok & Hdot & Hs & He).
    rewrite forallb_app in Hok. apply andb_true_iff in Hok. destruct Hok as [Hokl Hokd].
    pose proof (notSpaceNorAt_no_at l Hokl) as Hnl.
    pose proof (notSpaceNorAt_no_at d Hokd) as Hnd.
    assert (Js.trim email <> []) as Hne by (rewrite Ht; destruct l; discriminate).
    unfold isValidEmail.
    assert (negb (Js.nonEmpty email) || (length (Js.trim email) =? 0) = false) as ->.
    { apply orb_false_iff. split.
      - pose proof (trim_nonEmpty email Hne). destruct email; [contradiction | reflexivity].
      - destruct (Js.trim email); [contradiction | reflexivity]. }
    rewrite Ht.
    assert (count_occ ascii_dec (l ++ [Ch.at_] ++ d) Ch.at_ = 1) as ->.
    { rewrite !count_occ_app, (count_occ_absent l Ch.at_ Hnl),
        (count_occ_absent d Ch.at_ Hnd). reflexivity. }
    simpl negb. cbv iota.
    change (l ++ [Ch.at_] ++ d) with (l ++ Ch.at_ :: d).
    rewrite (split_app_sep Ch.at_ l d Hnl), (split_absent Ch.at_ d Hnd).
    assert (Js.nonEmpty l = true) as -> by (destruct l; [contradiction | reflexivity]).
    assert (Js.nonEmpty d = true) as -> by (destruct d; [destruct Hdot | reflexivity]).
    simpl negb. simpl orb. cbv iota.
    assert (Js.includesChar Ch.dot d = true) as ->.
    { apply existsb_exists. exists Ch.dot. split; [exact Hdot | reflexivity]. }
    rewrite Hs, He. simpl negb. simpl orb. cbv iota.
    destruct (in_split Ch.dot d Hdot) as (d1 & d2 & ->).
    rewrite forallb_app in Hokd. apply andb_true_iff in Hokd. destruct Hokd as [Hok1 Hok2].
    simpl in Hok2.
    rewrite emailRegex_intro; [reflexivity | exact Hl | | | exact Hokl | exact Hok1 | exact Hok2].
    + intros ->. simpl in Hs. discriminate.
    + intros ->. unfold Js.endsWithChar in He. rewrite rev_app_distr in He.
      simpl in He. discriminate.
Qed.

(** X11: an email is valid exactly when, trimmed, it reads local part, at
    sign, domain, where the local part is not empty, neither part holds
    white space or another at sign, and the domain has a dot but neither
    starts nor ends with one. *)
Theorem isValidEmail_iff (email : str) :
  isValidEmail email = true
  <-> exists localPart domain,
        Js.trim email = localPart ++ [Ch.at_] ++ domain
        /\ localPart <> []
        /\ forallb Re.notSpaceNorAt (localPart ++ domain) = true
        /\ In Ch.dot domain
        /\ Js.startsWithChar Ch.dot domain = false
        /\ Js.endsWithChar Ch.dot domain = false.
Proof. apply isValidEmail_shape. Qed.

(** ** EmailNormalizer *)

Lemma autoCorrectEmailDomain_trim (email : str) :
  autoCorrectEmailDomain (Js.trim email) = autoCorrectEmailDomain email.
Proof. unfold autoCorrectEmailDomain. rewrite trim_idempotent. reflexivity. Qed.

Lemma truthy_lookup_In (key : str) (table : list (str * str)) (v : str) :
  truthy (lookup key table) = Some v -> In v (map snd table).
Proof.
  induction table as [ | [k w] rest IH]; simpl; [discriminate | ].
  destruct (Js.eqb k key).
  - simpl. destruct (Js.nonEmpty w); [ | discriminate].
    intros H. injection H as ->. left. reflexivity.
  - intros H. right. apply IH. exact H.
Qed.

(** The three suffixes that the typo table can put in place. *)
Lemma corrected_suffix (v : str) :
  In v (map snd typoCorrections) -> v = lit ".com" \/ v = lit ".org" \/ v = lit ".net".
Proof.
  simpl. intros H.
  repeat (destruct H as [<- | H]; [auto | ]). destruct H.
Qed.

Lemma lastIndexOf_spec (c : ascii) (s : str) (i : nat) :
  Js.lastIndexOf c s = Some i ->
  exists a b, s = a ++ c :: b /\ length a = i /\ ~ In c b.
Proof.
  revert i. induction s as [ | d r IH]; intros i; simpl; [discriminate | ].
  destruct (Js.lastIndexOf c r) as [j | ] eqn:E.
  - intros H. injection H as <-.
    destruct (IH j eq_refl) as (a & b & -> & Hlen & Hb).
    exists (d :: a), b. repeat split; [simpl; rewrite Hlen; reflexivity | exact Hb].
  - destruct (Ascii.eqb d c) eqn:Ed; [ | discriminate].
    intros H. injection H as <-. apply Ascii.eqb_eq in Ed. subst d.
    exists [], r. repeat split.
    clear IH. induction r as [ | x r IHr]; [tauto | ].
    simpl in E. destruct (Js.lastIndexOf c r); [discriminate | ].
    destruct (Ascii.eqb x c) eqn:Ex; [discriminate | ].
    intros [-> | Hin]; [rewrite Ascii.eqb_refl in Ex; discriminate | ].
    apply IHr; [reflexivity | exact Hin].
Qed.

Lemma lastIndexOf_app_last (c : ascii) (a b : str) :
  ~ In c b -> Js.lastIndexOf c (a ++ c :: b) = Some (length a).
Proof.
  intros Hb.
  assert (Js.lastIndexOf c b = None) as Hnone.
  { induction b as [ | x b IH]; [reflexivity | ].
    simpl. rewrite IH by (intros H; apply Hb; right; exact H).
    destruct (Ascii.eqb x c) eqn:E; [ | reflexivity].
    apply Ascii.eqb_eq in E. subst x. exfalso. apply Hb. left. reflexivity. }
  induction a as [ | d a IH]; simpl.
  - rewrite Hnone, Ascii.eqb_refl. reflexivity.
  - rewrite IH. reflexivity.
Qed.

(** What [autoCorrectEmailDomain] can return: the trimmed input, or the
    first two parts around the at sign with everything from the last dot of
    the domain replaced by a corrected suffix. *)
Lemma autoCorrectEmailDomain_cases (email : str) :
  autoCorrectEmailDomain email = Js.trim email
  \/ exists localPart domain others base rest suffix,
       Js.split Ch.at_ (Js.trim email) = localPart :: domain :: others
       /\ domain = base ++ Ch.dot :: rest
       /\ ~ In Ch.dot rest
       /\ In suffix (map snd typoCorrections)
       /\ autoCorrectEmailDomain email = localPart ++ [Ch.at_] ++ base ++ suffix.
Proof.
  unfold autoCorrectEmailDomain.
  destruct (negb (Js.includesChar Ch.at_ (Js.trim email))); [left; reflexivity | ].
  destruct (Js.split Ch.at_ (Js.trim email)) as [ | l [ | d others]] eqn:Esplit;
    [left; reflexivity | left; reflexivity | ].
  destruct (negb (Js.nonEmpty d)); [left; reflexivity | ].
  destruct (Js.lastIndexOf Ch.dot d) as [i | ] eqn:Edot; [ | left; reflexivity].
  destruct (lastIndexOf_spec Ch.dot d i Edot) as (base & rest & Hd & Hlen & Hrest).
  assert (Js.substringTo i d = base) as Hbase.
  { unfold Js.substringTo. rewrite Hd, <- Hlen.
    rewrite firstn_app, Nat.sub_diag, firstn_all. simpl. apply app_nil_r. }
  destruct (includesStr _ validTLDs); [left; reflexivity | ].
  destruct (truthy (lookup (Js.toLowerCase (Js.substringFrom i d)) typoCorrections))
    as [suffix | ] eqn:E1.
  - right. exists l, d, others, base, rest, suffix. rewrite Hbase.
    repeat split; try assumption. eapply truthy_lookup_In. exact E1.
  - destruct (Js.endsWithChar Ch.comma (Js.substringFrom i d)); [ | left; reflexivity].
    destruct (truthy (lookup (Js.toLowerCase (Js.sliceTo_1 (Js.substringFrom i d)))
                        typoCorrections)) as [suffix | ] eqn:E2; [ | left; reflexivity].
    right. exists l, d, others, base, rest, suffix. rewrite Hbase.
    repeat split; try assumption. eapply truthy_lookup_In. exact E2.
Qed.

Lemma trim_head (s : str) (c : ascii) (r : str) :
  Js.trim s = c :: r -> Ch.isSpace c = false.
Proof.
  unfold Js.trim. intros H.
  destruct (Js.trimStart s) as [ | d u] eqn:E; [discriminate | ].
  assert (Ch.isSpace d = false) as Hd by (eapply dropWhile_head; exact E).
  rewrite trimEnd_cons in H by exact Hd. injection H as <- _. exact Hd.
Qed.

(** A string that starts and ends with characters that are not white
    space is its own trimmed form. *)
Lemma trim_fixed (c z : ascii) (m : str) :
  Ch.isSpace c = false -> Ch.isSpace z = false ->
  Js.trim (c :: m ++ [z]) = c :: m ++ [z].
Proof.
  intros Hc Hz. unfold Js.trim.
  assert (Js.trimStart (c :: m ++ [z]) = c :: m ++ [z]) as ->
      by (unfold Js.trimStart; simpl; rewrite Hc; reflexivity).
  change (c :: m ++ [z]) with ((c :: m) ++ [z]).
  generalize (c :: m). intros x.
  unfold Js.trimEnd. rewrite rev_app_distr. simpl. rewrite Hz.
  simpl. rewrite rev_involutive. reflexivity.
Qed.

Lemma corrected_trimmed (email l d : str) (others : list str) (base suffix : str) :
  Js.split Ch.at_ (Js.trim email) = l :: d :: others ->
  In suffix (map snd typoCorrections) ->
  Js.trim (l ++ [Ch.at_] ++ base ++ suffix) = l ++ [Ch.at_] ++ base ++ suffix.
Proof.
  intros Hsplit Hsuffix.
  assert (exists body z, suffix = body ++ [z] /\ Ch.isSpace z = false) as (body & z & -> & Hz).
  { destruct (corrected_suffix suffix Hsuffix) as [-> | [-> | ->]].
    - exists (lit ".co"), "m"%char. split; reflexivity.
    - exists (lit ".or"), "g"%char. split; reflexivity.
    - exists (lit ".ne"), "t"%char. split; reflexivity. }
  destruct l as [ | c l].
  - simpl app. rewrite app_assoc. apply trim_fixed; [reflexivity | exact Hz].
  - assert (Ch.isSpace c = false) as Hc.
    { pose proof (join_split Ch.at_ (Js.trim email)) as Hjoin.
      rewrite Hsplit in Hjoin.
      change (Js.join [Ch.at_] ((c :: l) :: d :: others))
        with (c :: (l ++ [Ch.at_] ++ Js.join [Ch.at_] (d :: others))) in Hjoin.
      eapply trim_head. symmetry. exact Hjoin. }
    replace ((c :: l) ++ [Ch.at_] ++ base ++ body ++ [z])
      with (c :: (l ++ [Ch.at_] ++ base ++ body) ++ [z])
      by (simpl; repeat (rewrite <- app_assoc; simpl); reflexivity).
    apply trim_fixed; assumption.
Qed.

Lemma firstn_incl (n : nat) (s : str) (x : ascii) : In x (firstn n s) -> In x s.
Proof.
  intros H. rewrite <- (firstn_skipn n s). apply in_or_app. left. exact H.
Qed.

(** The normaliser on one of its own corrections. *)
Lemma autoCorrectEmailDomain_corrected (l base suffix : str) :
  ~ In Ch.at_ l -> ~ In Ch.at_ base ->
  In suffix (map snd typoCorrections) ->
  Js.trim (l ++ [Ch.at_] ++ base ++ suffix) = l ++ [Ch.at_] ++ base ++ suffix ->
  autoCorrectEmailDomain (l ++ [Ch.at_] ++ base ++ suffix)
  = l ++ [Ch.at_] ++ base ++ suffix.
Proof.
  intros Hl Hbase Hsuffix Htrim.
  unfold autoCorrectEmailDomain. rewrite Htrim.
  assert (Js.includesChar Ch.at_ (l ++ [Ch.at_] ++ base ++ suffix) = true) as ->.
  { apply existsb_exists. exists Ch.at_. split; [ | reflexivity].
    apply in_or_app. right. left. reflexivity. }
  simpl negb. cbv iota.
  assert (~ In Ch.at_ (base ++ suffix)) as Hd.
  { intros H. apply in_app_or in H. destruct H as [H | H]; [exact (Hbase H) | ].
    destruct (corrected_suffix suffix Hsuffix) as [-> | [-> | ->]];
      vm_compute in H; intuition discriminate. }
  change (l ++ [Ch.at_] ++ base ++ suffix) with (l ++ Ch.at_ :: (base ++ suffix)).
  rewrite (split_app_sep Ch.at_ l (base ++ suffix) Hl), (split_absent Ch.at_ _ Hd).
  assert (exists tail, suffix = Ch.dot :: tail /\ ~ In Ch.dot tail) as (tail & -> & Htail).
  { destruct (corrected_suffix suffix Hsuffix) as [-> | [-> | ->]];
      eexists; (split; [reflexivity | ]); intros H; vm_compute in H; intuition discriminate. }
  assert (Js.nonEmpty (base ++ Ch.dot :: tail) = true) as -> by (destruct base; reflexivity).
  simpl negb. cbv iota.
  rewrite (lastIndexOf_app_last Ch.dot base tail Htail).
  unfold Js.substringFrom, Js.substringTo.
  rewrite skipn_app, Nat.sub_diag, skipn_all. simpl app.
  destruct (corrected_suffix _ Hsuffix) as [E | [E | E]];
    injection E as ->; reflexivity.
Qed.

(** X12: normalising an email a second time changes nothing. *)
Theorem autoCorrectEmailDomain_idempotent (email : str) :
  autoCorrectEmailDomain (autoCorrectEmailDomain email) = autoCorrectEmailDomain email.
Proof.
  destruct (autoCorrectEmailDomain_cases email)
    as [H | (l & d & others & base & rest & suffix & Hsplit & Hd & _ & Hsuffix & H)].
  - rewrite H at 1. apply autoCorrectEmailDomain_trim.
  - rewrite H. apply autoCorrectEmailDomain_corrected.
    + apply (split_no_sep Ch.at_ (Js.trim email)). rewrite Hsplit. left. reflexivity.
    + intros Hin.
      apply (split_no_sep Ch.at_ (Js.trim email) d); [rewrite Hsplit; right; left; reflexivity | ].
      rewrite Hd. apply in_or_app. left. exact Hin.
    + exact Hsuffix.
    + eapply corrected_trimmed; eassumption.
Qed.

(** X13: normalisation never spoils a valid email: what [isValidEmail]
    accepts, it still accepts after [autoCorrectEmailDomain]. *)
Theorem autoCorrectEmailDomain_keeps_valid (email : str) :
  isValidEmail email = true -> isValidEmail (autoCorrectEmailDomain email) = true.
Proof.
  intros Hvalid. apply isValidEmail_shape in Hvalid.
  destruct Hvalid as (l & d & Ht & Hl & Hok & Hdot & Hs & He).
  destruct (autoCorrectEmailDomain_cases email)
    as [H | (l' & d' & others & base & rest & suffix & Hsplit & Hd & _ & Hsuffix & H)].
  - rewrite H. apply isValidEmail_shape. exists l, d.
    rewrite trim_idempotent. repeat split; assumption.
  - rewrite forallb_app in Hok. apply andb_true_iff in Hok. destruct Hok as [Hokl Hokd].
    pose proof (notSpaceNorAt_no_at l Hokl) as Hnl.
    pose proof (notSpaceNorAt_no_at d Hokd) as Hnd.
    pose proof Hsplit as Hsplit'.
    rewrite Ht in Hsplit'. change (l ++ [Ch.at_] ++ d) with (l ++ Ch.at_ :: d) in Hsplit'.
    rewrite (split_app_sep Ch.at_ l d Hnl), (split_absent Ch.at_ d Hnd) in Hsplit'.
    injection Hsplit' as <- <- <-.
    rewrite H. apply isValidEmail_shape. exists l, (base ++ suffix).
    rewrite Hd, forallb_app in Hokd. apply andb_true_iff in Hokd. destruct Hokd as [Hokb _].
    assert (base <> []) as Hbase.
    { intros ->. rewrite Hd in Hs. simpl in Hs. discriminate. }
    split; [eapply corrected_trimmed; eassumption | ].
    split; [exact Hl | ].
    destruct (corrected_suffix suffix Hsuffix) as [-> | [-> | ->]].
    all: repeat split.
    all: try (rewrite !forallb_app, Hokl, Hokb; reflexivity).
    all: try (apply in_or_app; right; left; reflexivity).
    all: try (destruct base as [ | b base]; [contradiction | ];
              rewrite Hd in Hs; simpl in Hs; simpl; exact Hs).
    all: unfold Js.endsWithChar; rewrite rev_app_distr; reflexivity.
Qed.

Lemma autoCorrectEmailDomain_keeps_valid_witness :
  isValidEmail (autoCorrectEmailDomain (lit " ada@x.con ")) = true.
Proof.
  apply autoCorrectEmailDomain_keeps_valid. reflexivity.
Defined.

(** ** RowValidator: what an accepted row looks like *)

Lemma nth_setAt_same (i : nat) (v : str) (arr : list str) :
  i < length arr -> nth i (setAt i v arr) [] = v.
Proof.
  revert i. induction arr as [ | x r IH]; intros i Hi; simpl in Hi; [lia | ].
  destruct i; simpl; [reflexivity | apply IH; lia].
Qed.

Lemma nth_setAt_other (i j : nat) (v : str) (arr : list str) :
  j <> i -> nth j (setAt i v arr) [] = nth j arr [].
Proof.
  revert i j. induction arr as [ | x r IH]; intros i j Hj; [reflexivity | ].
  destruct i, j; simpl; try reflexivity; [contradiction | apply IH; congruence].
Qed.

Lemma inRange_spec (i : Z) (arr : list str) :
  inRange i arr = true <-> (0 <= i < Z.of_nat (length arr))%Z.
Proof.
  unfold inRange. rewrite andb_true_iff, Z.leb_le, Z.ltb_lt. tauto.
Qed.

Lemma inRange_to_nat (i : Z) (arr : list str) :
  inRange i arr = true -> Z.to_nat i < length arr /\ Z.of_nat (Z.to_nat i) = i.
Proof. intros H. apply inRange_spec in H. lia. Qed.

Lemma nth_map_cleanField (j : nat) (row : list str) :
  nth j (map cleanField row) [] = cleanField (nth j row []).
Proof. apply (map_nth cleanField row [] j). Qed.

Lemma nth_rowBeforePhone_other (row : list str) (e : Z) (j : nat) :
  Z.of_nat j <> e -> nth j (rowBeforePhone row e) [] = cleanField (nth j row []).
Proof.
  intros Hj. unfold rowBeforePhone. cbv zeta.
  destruct (inRange e (map cleanField row)) eqn:E; [ | apply nth_map_cleanField].
  apply inRange_to_nat in E.
  rewrite nth_setAt_other by lia. apply nth_map_cleanField.
Qed.

Lemma nth_rowBeforePhone_email (row : list str) (e : Z) :
  inRange e row = true ->
  nth (Z.to_nat e) (rowBeforePhone row e) []
  = autoCorrectEmailDomain (cleanField (nth (Z.to_nat e) row [])).
Proof.
  intros He. unfold rowBeforePhone. cbv zeta.
  rewrite (inRange_length e (map cleanField row) row (length_map _ _)), He.
  rewrite nth_setAt_same, nth_map_cleanField; [reflexivity | ].
  rewrite length_map. apply inRange_to_nat. exact He.
Qed.

Lemma nth_phoneStep_other (r : list str) (p : Z) (j : nat) :
  Z.of_nat j <> p -> nth j (phoneStep r p) [] = nth j r [].
Proof.
  intros Hj. unfold phoneStep. cbv zeta.
  destruct (inRange p r) eqn:E; [ | reflexivity].
  destruct (_ && _); [ | reflexivity].
  apply inRange_to_nat in E. apply nth_setAt_other. lia.
Qed.

(** What [validateAndCleanRow] requires of a row that it accepts. *)
Lemma validateAndCleanRow_accepted (row : list str) (width : nat) (e p : Z) (r : list str) :
  validateAndCleanRow row width e p = Some r ->
  length row = width
  /\ (inRange e row = true ->
      isValidEmail (autoCorrectEmailDomain (cleanField (nth (Z.to_nat e) row []))) = true)
  /\ r = phoneStep (rowBeforePhone row e) p
  /\ forallb fieldPassesSweep r = true.
Proof.
  rewrite validateAndCleanRow_stages.
  destruct (length row =? width) eqn:Hw; simpl negb; cbv iota; [ | discriminate].
  apply Nat.eqb_eq in Hw.
  rewrite (inRange_length e (map cleanField row) row (length_map _ _)).
  rewrite nth_map_cleanField.
  destruct (inRange e row && _) eqn:Hemail; [discriminate | ].
  destruct (forallb fieldPassesSweep _) eqn:Hsweep; [ | discriminate].
  intros H. injection H as <-. repeat split; try assumption.
  intros He. rewrite He in Hemail. simpl in Hemail.
  apply negb_false_iff in Hemail. exact Hemail.
Qed.

(** X14: in an accepted row every field other than the email and the phone
    field is the cleaned field of the input row, at the same position. *)
Theorem validateAndCleanRow_other_fields
    (row : list str) (width : nat) (e p : Z) (r : list str) (j : nat) :
  validateAndCleanRow row width e p = Some r ->
  Z.of_nat j <> e -> Z.of_nat j <> p ->
  nth j r [] = cleanField (nth j row []).
Proof.
  intros H He Hp. apply validateAndCleanRow_accepted in H.
  destruct H as (_ & _ & -> & _).
  rewrite nth_phoneStep_other by exact Hp.
  apply nth_rowBeforePhone_other. exact He.
Qed.

Lemma validateAndCleanRow_other_fields_witness :
  nth 0 [lit "Bob"; lit "bob@x.com"; lit "+1 415 555 2671"] []
  = cleanField (nth 0 [lit " Bob,"; lit "bob@x.con"; lit "+1 415 555 2671"] []).
Proof.
  apply (validateAndCleanRow_other_fields
           [lit " Bob,"; lit "bob@x.con"; lit "+1 415 555 2671"] 3 1 2);
    [reflexivity | discriminate | discriminate].
Defined.

(** X15: when the email index points into the row and is not also the
    phone index, the email field of an accepted row is the normalised,
    cleaned input field, and it is a valid email. *)
Theorem validateAndCleanRow_email_field
    (row : list str) (width : nat) (e p : Z) (r : list str) :
  validateAndCleanRow row width e p = Some r ->
  inRange e row = true -> e <> p ->
  nth (Z.to_nat e) r [] = autoCorrectEmailDomain (cleanField (nth (Z.to_nat e) row []))
  /\ isValidEmail (nth (Z.to_nat e) r []) = true.
Proof.
  intros H He Hp. apply validateAndCleanRow_accepted in H.
  destruct H as (_ & Hvalid & -> & _).
  pose proof (inRange_to_nat e row He) as [_ Hz].
  rewrite nth_phoneStep_other by lia.
  rewrite nth_rowBeforePhone_email by exact He.
  split; [reflexivity | apply Hvalid; exact He].
Qed.

Lemma validateAndCleanRow_email_field_witness :
  nth 1 [lit "Bob"; lit "bob@x.com"; lit "+1 415 555 2671"] []
  = autoCorrectEmailDomain
      (cleanField (nth 1 [lit " Bob,"; lit "bob@x.con"; lit "+1 415 555 2671"] []))
  /\ isValidEmail (nth 1 [lit "Bob"; lit "bob@x.com"; lit "+1 415 555 2671"] []) = true.
Proof.
  apply (validateAndCleanRow_email_field
           [lit " Bob,"; lit "bob@x.con"; lit "+1 415 555 2671"] 3 1 2);
    [reflexivity | reflexivity | discriminate].
Defined.

(** X16: when the phone index points into the row, the phone field of an
    accepted row is either blank (empty once trimmed) or a valid phone
    number. *)
Theorem validateAndCleanRow_phone_field
    (row : list str) (width : nat) (e p : Z) (r : list str) :
  validateAndCleanRow row width e p = Some r ->
  inRange p row = true ->
  Js.trim (nth (Z.to_nat p) r []) = []
  \/ isValidPhoneNumber (nth (Z.to_nat p) r []) = true.
Proof.
  intros H Hp. apply validateAndCleanRow_accepted in H.
  destruct H as (_ & _ & -> & _).
  unfold phoneStep. cbv zeta.
  rewrite (inRange_length p (rowBeforePhone row e) row (length_rowBeforePhone row e)), Hp.
  pose proof (inRange_to_nat p row Hp) as [Hlt _].
  destruct (nth (Z.to_nat p) (rowBeforePhone row e) []) as [ | c t] eqn:Ephone.
  - simpl. rewrite Ephone. left. reflexivity.
  - simpl Js.nonEmpty. simpl andb.
    destruct (Js.trim (c :: t)) as [ | c' t'] eqn:Etrim.
    + simpl. rewrite Ephone. left. exact Etrim.
    + simpl. destruct (isValidPhoneNumber (c :: t)) eqn:Ev; simpl.
      * rewrite Ephone. right. exact Ev.
      * rewrite nth_setAt_same by (rewrite length_rowBeforePhone; exact Hlt).
        left. reflexivity.
Qed.

Lemma validateAndCleanRow_phone_field_witness :
  Js.trim (nth 2 [lit "Bob"; lit "bob@x.com"; []] []) = []
  \/ isValidPhoneNumber (nth 2 [lit "Bob"; lit "bob@x.com"; []] []) = true.
Proof.
  apply (validateAndCleanRow_phone_field [lit "Bob"; lit "bob@x.com"; lit "123"] 3 1 2);
    reflexivity.
Defined.

Lemma valid_email_has_at (email : str) : isValidEmail email = true -> In Ch.at_ email.
Proof.
  intros H. apply isValidEmail_shape in H. destruct H as (l & d & Ht & _).
  apply trim_incl. rewrite Ht. apply in_or_app. right. left. reflexivity.
Qed.

Lemma valid_email_not_phone (email : str) :
  isValidEmail email = true -> isValidPhoneNumber email = false.
Proof.
  intros H. apply valid_email_has_at in H.
  destruct (isValidPhoneNumber email) eqn:E; [ | reflexivity].
  apply isValidPhoneNumber_shape in E. destruct E as [E _].
  rewrite Forall_forall in E. destruct (E Ch.at_ H); discriminate.
Qed.

Lemma valid_email_not_blank (email : str) :
  isValidEmail email = true -> Js.trim email <> [].
Proof.
  intros H. apply isValidEmail_shape in H. destruct H as (l & d & Ht & _).
  rewrite Ht. destruct l; discriminate.
Qed.

(** When the email index and the phone index are the same position of the
    row, an accepted row has that field emptied: the valid email is not a
    valid phone number, and the phone step clears it. *)
Lemma validateAndCleanRow_same_index_cleared
    (row : list str) (width : nat) (i : Z) (r : list str) :
  validateAndCleanRow row width i i = Some r ->
  inRange i row = true ->
  nth (Z.to_nat i) r [] = [].
Proof.
  intros H Hi. apply validateAndCleanRow_accepted in H.
  destruct H as (_ & Hvalid & -> & _). specialize (Hvalid Hi).
  unfold phoneStep. cbv zeta.
  rewrite (inRange_length i (rowBeforePhone row i) row (length_rowBeforePhone row i)), Hi.
  rewrite (nth_rowBeforePhone_email row i Hi).
  rewrite (valid_email_not_phone _ Hvalid).
  pose proof (valid_email_not_blank _ Hvalid) as Hne.
  destruct (autoCorrectEmailDomain (cleanField (nth (Z.to_nat i) row []))) as [ | c t];
    [contradiction Hne; reflexivity | ].
  destruct (Js.trim (c :: t)); [contradiction Hne; reflexivity | ].
  simpl. apply nth_setAt_same. rewrite length_rowBeforePhone.
  apply inRange_to_nat. exact Hi.
Qed.

(** ** Pipeline: the result and the errors *)

Lemma processRows_spec (width : nat) (e p : Z) (dataRows : list (list str)) :
  forall acc,
    processRows width e p dataRows acc
    = mkResult (validRows acc ++ acceptedRows width e p dataRows)
               (invalidRowCount acc + rejectedCount width e p dataRows).
Proof.
  unfold processRows, acceptedRows, rejectedCount.
  induction dataRows as [ | row rest IH]; intros [rows n]; simpl.
  - rewrite app_nil_r, Nat.add_0_r. reflexivity.
  - rewrite IH. destruct (validateAndCleanRow row width e p); simpl.
    + rewrite <- app_assoc. reflexivity.
    + f_equal. lia.
Qed.

Lemma length_accepted_rejected (width : nat) (e p : Z) (dataRows : list (list str)) :
  length (acceptedRows width e p dataRows) + rejectedCount width e p dataRows
  = length dataRows.
Proof.
  unfold acceptedRows, rejectedCount.
  induction dataRows as [ | row rest IH]; [reflexivity | ].
  simpl. destruct (validateAndCleanRow row width e p); simpl.
  - rewrite <- IH. reflexivity.
  - rewrite <- IH. lia.
Qed.

Lemma In_acceptedRows (width : nat) (e p : Z) (dataRows : list (list str)) (r : list str) :
  In r (acceptedRows width e p dataRows) ->
  exists row, In row dataRows /\ validateAndCleanRow row width e p = Some r.
Proof.
  unfold acceptedRows. intros H. apply in_flat_map in H.
  destruct H as [row [Hrow Hr]]. exists row. split; [exact Hrow | ].
  destruct (validateAndCleanRow row width e p) as [c | ]; [ | destruct Hr].
  destruct Hr as [-> | []]. reflexivity.
Qed.

Lemma checkHeaderNames_None (headers expectedColumns : list str) :
  forall i,
    length headers = length expectedColumns ->
    checkHeaderNames i headers expectedColumns = None ->
    Forall2 (fun h c => normalizedName h = normalizedName c) headers expectedColumns.
Proof.
  revert expectedColumns.
  induction headers as [ | h hs IH]; intros [ | c cs] i Hlen H; try discriminate.
  - constructor.
  - simpl in H. unfold Js.eqb in H.
    destruct (list_eq_dec ascii_dec (Js.trim (Js.toLowerCase h)) (Js.trim (Js.toLowerCase c)))
      as [E | E]; [ | discriminate].
    constructor; [exact E | ]. apply (IH cs (S i)); [simpl in Hlen; lia | exact H].
Qed.

(** The shape of every call that returns on an input that is not blank. *)
Lemma validateAndCleanCSV_returned (csvText : str) (expectedColumns : list str)
    (result : ParseResult) :
  blank csvText = false ->
  validateAndCleanCSV csvText expectedColumns = Returned result ->
  exists headers dataRows,
    parseCSV csvText = headers :: dataRows
    /\ Forall2 (fun h c => normalizedName h = normalizedName c) headers expectedColumns
    /\ validRows result
       = map cleanField headers
         :: acceptedRows (length expectedColumns)
              (findColumnIndex isEmailName 0 expectedColumns)
              (findColumnIndex isPhoneName 0 expectedColumns) dataRows
    /\ invalidRowCount result
       = rejectedCount (length expectedColumns)
           (findColumnIndex isEmailName 0 expectedColumns)
           (findColumnIndex isPhoneName 0 expectedColumns) dataRows.
Proof.
  intros Hb. unfold validateAndCleanCSV. cbv zeta.
  destruct (nonBlankLines csvText) as [ | l ls] eqn:E.
  { apply blank_nonBlankLines in E. congruence. }
  simpl Nat.eqb. cbv iota.
  destruct (parseCSV csvText) as [ | headers dataRows]; [discriminate | ].
  destruct (length headers =? length expectedColumns) eqn:Hw; simpl negb; cbv iota;
    [ | discriminate].
  apply Nat.eqb_eq in Hw.
  destruct (checkHeaderNames 0 headers expectedColumns) eqn:Hnames; [discriminate | ].
  intros H. injection H as <-. rewrite processRows_spec. simpl.
  exists headers, dataRows. repeat split.
  eapply checkHeaderNames_None; eassumption.
Qed.

(** X18: a call that returns on a non-blank input gives the cleaned header
    followed by the accepted data rows, cleaned, in the order of the input;
    [invalidRowCount] is the number of data rows that were rejected. *)
Theorem validateAndCleanCSV_rows_in_order (csvText : str) (expectedColumns : list str)
    (result : ParseResult) :
  blank csvText = false ->
  validateAndCleanCSV csvText expectedColumns = Returned result ->
  validRows result
  = map cleanField (hd [] (parseCSV csvText))
    :: acceptedRows (length expectedColumns)
         (findColumnIndex isEmailName 0 expectedColumns)
         (findColumnIndex isPhoneName 0 expectedColumns) (tl (parseCSV csvText))
  /\ invalidRowCount result
     = rejectedCount (length expectedColumns)
         (findColumnIndex isEmailName 0 expectedColumns)
         (findColumnIndex isPhoneName 0 expectedColumns) (tl (parseCSV csvText)).
Proof.
  intros Hb H.
  destruct (validateAndCleanCSV_returned csvText expectedColumns result Hb H)
    as (headers & dataRows & -> & _ & Hrows & Hcount).
  simpl. split; assumption.
Qed.

Lemma validateAndCleanCSV_rows_in_order_witness :
  validRows (mkResult [[lit "name"; lit "email"]; [lit "Ada"; lit "ada@x.com"]] 1)
  = map cleanField
      (hd [] (parseCSV (csvOf ["name,email"; "Ada,ada@x.con"; "Bob,not-an-email"]%string)))
    :: acceptedRows 2 1 (-1)
         (tl (parseCSV (csvOf ["name,email"; "Ada,ada@x.con"; "Bob,not-an-email"]%string)))
  /\ invalidRowCount (mkResult [[lit "name"; lit "email"]; [lit "Ada"; lit "ada@x.com"]] 1)
     = rejectedCount 2 1 (-1)
         (tl (parseCSV (csvOf ["name,email"; "Ada,ada@x.con"; "Bob,not-an-email"]%string))).
Proof.
  apply (validateAndCleanCSV_rows_in_order
           (csvOf ["name,email"; "Ada,ada@x.con"; "Bob,not-an-email"]%string)
           [lit "name"; lit "email"]);
    reflexivity.
Defined.

(** X19: no row is lost without being counted: on a non-blank input the
    rows returned, header included, and the rows counted as invalid add up
    to the rows that the tokenizer produced. *)
Theorem validateAndCleanCSV_accounts_for_rows (csvText : str) (expectedColumns : list str)
    (result : ParseResult) :
  blank csvText = false ->
  validateAndCleanCSV csvText expectedColumns = Returned result ->
  length (validRows result) + invalidRowCount result = length (parseCSV csvText).
Proof.
  intros Hb H.
  destruct (validateAndCleanCSV_returned csvText expectedColumns result Hb H)
    as (headers & dataRows & -> & _ & -> & ->).
  simpl. rewrite length_accepted_rejected. reflexivity.
Qed.

Lemma validateAndCleanCSV_accounts_for_rows_witness :
  length (validRows (mkResult [[lit "name"; lit "email"]; [lit "Ada"; lit "ada@x.com"]] 1))
  + invalidRowCount (mkResult [[lit "name"; lit "email"]; [lit "Ada"; lit "ada@x.com"]] 1)
  = length (parseCSV (csvOf ["name,email"; "Ada,ada@x.con"; "Bob,not-an-email"]%string)).
Proof.
  apply (validateAndCleanCSV_accounts_for_rows
           (csvOf ["name,email"; "Ada,ada@x.con"; "Bob,not-an-email"]%string)
           [lit "name"; lit "email"]);
    reflexivity.
Defined.

(** X20: a call that returns on a non-blank input has found a header row
    whose names are the expected names, position by position, up to letter
    case and surrounding white space. *)
Theorem validateAndCleanCSV_header_matches (csvText : str) (expectedColumns : list str)
    (result : ParseResult) :
  blank csvText = false ->
  validateAndCleanCSV csvText expectedColumns = Returned result ->
  Forall2 (fun h c => normalizedName h = normalizedName c)
    (hd [] (parseCSV csvText)) expectedColumns.
Proof.
  intros Hb H.
  destruct (validateAndCleanCSV_returned csvText expectedColumns result Hb H)
    as (headers & dataRows & -> & Hnames & _).
  exact Hnames.
Qed.

Lemma validateAndCleanCSV_header_matches_witness :
  Forall2 (fun h c => normalizedName h = normalizedName c)
    (hd [] (parseCSV (csvOf ["Name , EMAIL"; "Ada,ada@x.con"]%string)))
    [lit "name"; lit " Email"].
Proof.
  apply (validateAndCleanCSV_header_matches
           (csvOf ["Name , EMAIL"; "Ada,ada@x.con"]%string)
           [lit "name"; lit " Email"]
           (mkResult [[lit "Name"; lit "EMAIL"]; [lit "Ada"; lit "ada@x.com"]] 0));
    reflexivity.
Defined.

Lemma checkHeaderNames_mismatch (i : nat) :
  forall (headers expectedColumns : list str) (k : nat),
    i < length headers -> i < length expectedColumns ->
    (forall j, j < i ->
               normalizedName (nth j headers []) = normalizedName (nth j expectedColumns [])) ->
    normalizedName (nth i headers []) <> normalizedName (nth i expectedColumns []) ->
    checkHeaderNames k headers expectedColumns
    = Some (nameMismatchMessage (k + i + 1) (nth i expectedColumns []) (nth i headers [])).
Proof.
  induction i as [ | i IH]; intros [ | h hs] [ | c cs] k Hh Hc Hbefore Hat;
    simpl in Hh, Hc; try lia.
  - simpl in *. unfold Js.eqb.
    destruct (list_eq_dec ascii_dec (Js.trim (Js.toLowerCase h)) (Js.trim (Js.toLowerCase c)))
      as [E | E]; [contradiction | ].
    rewrite Nat.add_0_r. reflexivity.
  - simpl checkHeaderNames. unfold Js.eqb.
    destruct (list_eq_dec ascii_dec (Js.trim (Js.toLowerCase h)) (Js.trim (Js.toLowerCase c)))
      as [E | E].
    + rewrite (IH hs cs (S k)); try (simpl in *; lia).
      * replace (S k + i + 1) with (k + S i + 1) by lia. reflexivity.
      * intros j Hj. apply (Hbefore (S j)). lia.
      * exact Hat.
    + exfalso. apply E. apply (Hbefore 0). lia.
Qed.

(** X21: when the header row has the expected number of names and the
    first position at which a name differs from the expected one (up to
    letter case and surrounding white space) is [i], the call throws the
    error whose message gives the position [i + 1], the expected name and
    the name found. *)
Theorem validateAndCleanCSV_name_mismatch
    (csvText : str) (expectedColumns headers : list str) (dataRows : list (list str))
    (i : nat) :
  parseCSV csvText = headers :: dataRows ->
  length headers = length expectedColumns ->
  i < length expectedColumns ->
  (forall j, j < i ->
             normalizedName (nth j headers []) = normalizedName (nth j expectedColumns [])) ->
  normalizedName (nth i headers []) <> normalizedName (nth i expectedColumns []) ->
  validateAndCleanCSV csvText expectedColumns
  = ThrownError (nameMismatchMessage (i + 1) (nth i expectedColumns []) (nth i headers [])).
Proof.
  intros Hrows Hlen Hi Hbefore Hat.
  unfold validateAndCleanCSV. cbv zeta.
  rewrite (parseCSV_row_not_blank csvText headers dataRows Hrows), Hrows.
  rewrite Hlen, Nat.eqb_refl. simpl negb. cbv iota.
  rewrite (checkHeaderNames_mismatch i headers expectedColumns 0); try assumption; [reflexivity | lia].
Qed.

Lemma validateAndCleanCSV_name_mismatch_witness :
  validateAndCleanCSV (csvOf ["Name,mail"; "Ada,ada@x.com"]%string) [lit "name"; lit "email"]
  = ThrownError
      (lit "Column name mismatch at position 2. Expected " ++ [Ch.quote] ++ lit "email"
       ++ [Ch.quote] ++ lit ", but found " ++ [Ch.quote] ++ lit "mail" ++ [Ch.quote]
       ++ lit ".").
Proof.
  apply (validateAndCleanCSV_name_mismatch
           (csvOf ["Name,mail"; "Ada,ada@x.com"]%string) [lit "name"; lit "email"]
           [lit "Name"; lit "mail"] [[lit "Ada"; lit "ada@x.com"]] 1).
  - reflexivity.
  - reflexivity.
  - simpl. lia.
  - intros j Hj. assert (j = 0) as -> by lia. reflexivity.
  - vm_compute. discriminate.
Defined.

(** X22: whenever the header row does not have as many names as are
    expected, the call throws the error whose message gives both counts. *)
Theorem validateAndCleanCSV_any_count_mismatch
    (csvText : str) (expectedColumns headers : list str) (dataRows : list (list str)) :
  parseCSV csvText = headers :: dataRows ->
  length headers <> length expectedColumns ->
  validateAndCleanCSV csvText expectedColumns
  = ThrownError (countMismatchMessage (length expectedColumns) (length headers)).
Proof.
  intros Hrows Hlen.
  unfold validateAndCleanCSV. cbv zeta.
  rewrite (parseCSV_row_not_blank csvText headers dataRows Hrows), Hrows.
  apply Nat.eqb_neq in Hlen. rewrite Hlen. reflexivity.
Qed.

Lemma validateAndCleanCSV_any_count_mismatch_witness :
  validateAndCleanCSV (csvOf ["name,email,phone,city"; "Ada,ada@x.com,,Paris"]%string)
    [lit "name"]
  = ThrownError (lit "Column count mismatch. Expected 1 columns, but CSV has 4 columns.").
Proof.
  apply (validateAndCleanCSV_any_count_mismatch
           (csvOf ["name,email,phone,city"; "Ada,ada@x.com,,Paris"]%string) [lit "name"]
           [lit "name"; lit "email"; lit "phone"; lit "city"]
           [[lit "Ada"; lit "ada@x.com"; []; lit "Paris"]]).
  - reflexivity.
  - simpl. lia.
Defined.

Lemma findColumnIndex_spec (p : str -> bool) (expectedColumns : list str) :
  forall k,
    (findColumnIndex p k expectedColumns = (-1)%Z
     /\ Forall (fun c => p (Js.toLowerCase c) = false) expectedColumns)
    \/ exists i,
         findColumnIndex p k expectedColumns = (k + Z.of_nat i)%Z
         /\ i < length expectedColumns
         /\ p (Js.toLowerCase (nth i expectedColumns [])) = true
         /\ forall j, j < i -> p (Js.toLowerCase (nth j expectedColumns [])) = false.
Proof.
  induction expectedColumns as [ | c cs IH]; intros k.
  - left. split; [reflexivity | constructor].
  - simpl findColumnIndex. destruct (p (Js.toLowerCase c)) eqn:E.
    + right. exists 0. repeat split; [lia | simpl; lia | exact E | intros j Hj; lia].
    + destruct (IH (k + 1)%Z) as [[Hr Hall] | (i & Hr & Hi & Hp & Hbefore)].
      * left. split; [exact Hr | constructor; assumption].
      * right. exists (S i). repeat split; [lia | simpl; lia | exact Hp | ].
        intros [ | j] Hj; [exact E | apply Hbefore; lia].
Qed.

(** X23: each of the two column searches returns [-1] when no expected
    name, in lower case, satisfies its test, and otherwise the position of
    the first name that does; the result is always below the number of
    columns. *)
Theorem findColumnIndex_first_match (p : str -> bool) (expectedColumns : list str) :
  (findColumnIndex p 0 expectedColumns = (-1)%Z
   /\ Forall (fun c => p (Js.toLowerCase c) = false) expectedColumns)
  \/ exists i,
       findColumnIndex p 0 expectedColumns = Z.of_nat i
       /\ i < length expectedColumns
       /\ p (Js.toLowerCase (nth i expectedColumns [])) = true
       /\ forall j, j < i -> p (Js.toLowerCase (nth j expectedColumns [])) = false.
Proof.
  destruct (findColumnIndex_spec p expectedColumns 0) as [H | (i & Hr & H)].
  - left. exact H.
  - right. exists i. rewrite Hr. split; [reflexivity | exact H].
Qed.

(** X17: the call ends in a [TypeError] exactly when the input is not
    blank and the tokenizer keeps no row of it. *)
Theorem validateAndCleanCSV_TypeError_iff (csvText : str) (expectedColumns : list str) :
  validateAndCleanCSV csvText expectedColumns = ThrownTypeError
  <-> blank csvText = false /\ parseCSV csvText = [].
Proof. apply validateAndCleanCSV_TypeError. Qed.

(** X24: a column whose name makes it both the email and the phone column
    (it holds the word for one and for the other) comes out empty in every
    accepted data row. *)
Theorem validateAndCleanCSV_shared_column_emptied
    (csvText : str) (expectedColumns : list str) (result : ParseResult) (i : nat) :
  blank csvText = false ->
  validateAndCleanCSV csvText expectedColumns = Returned result ->
  findColumnIndex isEmailName 0 expectedColumns = Z.of_nat i ->
  findColumnIndex isPhoneName 0 expectedColumns = Z.of_nat i ->
  Forall (fun row => nth i row [] = []) (tl (validRows result)).
Proof.
  intros Hb H He Hp.
  destruct (validateAndCleanCSV_returned csvText expectedColumns result Hb H)
    as (headers & dataRows & _ & _ & -> & _).
  simpl tl. rewrite He, Hp. apply Forall_forall. intros r Hr.
  apply In_acceptedRows in Hr. destruct Hr as (row & _ & Hrow).
  assert (i < length expectedColumns) as Hi.
  { destruct (findColumnIndex_spec isEmailName expectedColumns 0)
      as [[Hr _] | (i' & Hr & Hi' & _)]; rewrite He in Hr; lia. }
  pose proof (validateAndCleanRow_accepted _ _ _ _ _ Hrow) as (Hlen & _).
  rewrite <- (Nat2Z.id i) at 1.
  apply (validateAndCleanRow_same_index_cleared row (length expectedColumns) (Z.of_nat i) r Hrow).
  apply inRange_spec. lia.
Qed.

Lemma validateAndCleanCSV_shared_column_emptied_witness :
  Forall (fun row => nth 1 row [] = [])
    (tl (validRows (mkResult [[lit "name"; lit "contact email"]; [lit "Ada"; []]] 0))).
Proof.
  apply (validateAndCleanCSV_shared_column_emptied
           (csvOf ["name,contact email"; "Ada,ada@x.com"]%string)
           [lit "name"; lit "contact email"]);
    reflexivity.
Defined.

Lemma nonBlankLines_trailing_newline (csvText : str) :
  nonBlankLines (csvText ++ [Ch.nl]) = nonBlankLines csvText.
Proof.
  unfold nonBlankLines. rewrite split_snoc_sep, filter_app. simpl. apply app_nil_r.
Qed.

(** X25: a line feed added at the end of the text changes nothing of what
    [validateAndCleanCSV] does: same result, same error. *)
Theorem validateAndCleanCSV_trailing_newline (csvText : str) (expectedColumns : list str) :
  validateAndCleanCSV (csvText ++ [Ch.nl]) expectedColumns
  = validateAndCleanCSV csvText expectedColumns.
Proof.
  unfold validateAndCleanCSV.
  rewrite nonBlankLines_trailing_newline, parseCSV_snoc_newline. reflexivity.
Qed.

(** ** The caller: the column list and the outcome of processing *)

Lemma includesStr_false (x : str) (l : list str) : includesStr x l = false -> ~ In x l.
Proof.
  unfold includesStr. intros H Hin.
  assert (existsb (Js.eqb x) l = true) as E; [ | congruence].
  apply existsb_exists. exists x. split; [exact Hin | ].
  unfold Js.eqb. destruct (list_eq_dec ascii_dec x x); [reflexivity | contradiction].
Qed.

Lemma removeAt_incl (index : nat) (cols : list str) (x : str) :
  In x (removeAt index cols) -> In x cols.
Proof.
  revert index. induction cols as [ | c rest IH]; intros index H; [exact H | ].
  destruct index; simpl in H; [right; exact H | ].
  destruct H as [<- | H]; [left; reflexivity | right; apply (IH index); exact H].
Qed.

Lemma removeAt_wellFormed (index : nat) (cols : list str) :
  columnsWellFormed cols -> columnsWellFormed (removeAt index cols).
Proof.
  unfold columnsWellFormed. revert index.
  induction cols as [ | c rest IH]; intros index [Hnd Hall]; [split; assumption | ].
  inversion Hnd as [ | ? ? Hc Hrest]; subst. inversion Hall as [ | ? ? Hc' Hrest']; subst.
  destruct index; simpl; [split; assumption | ].
  destruct (IH index (conj Hrest Hrest')) as [Hnd' Hall'].
  split; constructor; try assumption.
  intros Hin. apply Hc. eapply removeAt_incl. exact Hin.
Qed.

Lemma handleAddColumn_wellFormed (st : AppState) :
  columnsWellFormed (columns st) -> columnsWellFormed (columns (handleAddColumn st)).
Proof.
  unfold handleAddColumn. cbv zeta. intros [Hnd Hall].
  destruct (Js.nonEmpty (Js.trim (columnInput st))
            && negb (includesStr (Js.trim (columnInput st)) (columns st))) eqn:E;
    [ | split; assumption].
  apply andb_true_iff in E. destruct E as [Hne Hnew].
  apply negb_true_iff in Hnew. apply includesStr_false in Hnew.
  simpl columns. split.
  - apply NoDup_app; [exact Hnd | constructor; [intros [] | constructor] | ].
    intros x Hx [<- | []]. exact (Hnew Hx).
  - apply Forall_app. split; [exact Hall | ].
    constructor; [ | constructor]. split; [ | apply trim_idempotent].
    destruct (Js.trim (columnInput st)); [discriminate | discriminate].
Qed.

Lemma appStep_wellFormed (typeErrorMessage : str) (st : AppState) (ev : AppEvent) :
  columnsWellFormed (columns st) ->
  columnsWellFormed (columns (appStep typeErrorMessage st ev)).
Proof.
  intros H. destruct ev; simpl.
  - exact H.
  - apply handleAddColumn_wellFormed. exact H.
  - apply removeAt_wellFormed. exact H.
  - unfold handleFileSelect. destruct (negb (isCsvName name)); exact H.
  - exact H.
  - unfold handleProcessCSV.
    destruct (length (columns st) =? 0); [exact H | ].
    destruct (_ || _); [exact H | ].
    destruct (validateAndCleanCSV (csvText st) (columns st)); exact H.
Qed.

(** X26: whatever the user does, the column list of the component never
    holds a name twice, an empty name, or a name with white space around
    it. *)
Theorem runApp_columns_wellFormed (typeErrorMessage : str) (events : list AppEvent) :
  columnsWellFormed (columns (runApp typeErrorMessage events)).
Proof.
  unfold runApp.
  assert (columnsWellFormed (columns initialApp)) as Hinit
      by (split; constructor).
  revert Hinit. generalize initialApp.
  induction events as [ | ev rest IH]; intros st Hst; [exact Hst | ].
  simpl. apply IH. apply appStep_wellFormed. exact Hst.
Qed.

(** X27: processing a text that is not empty but blank, with columns and
    a file in place, reports success with no invalid row, stores an empty
    processed text, and so leaves nothing to download. *)
Theorem handleProcessCSV_blank_text (typeErrorMessage : str) (st : AppState) (name : str) :
  columns st <> [] ->
  csvFile st = Some name ->
  csvText st <> [] ->
  blank (csvText st) = true ->
  success (handleProcessCSV typeErrorMessage st)
  = lit "CSV processed successfully! No invalid rows found."
  /\ error (handleProcessCSV typeErrorMessage st) = []
  /\ processedCSV (handleProcessCSV typeErrorMessage st) = []
  /\ handleDownload (handleProcessCSV typeErrorMessage st) = None.
Proof.
  intros Hcols Hfile Htext Hblank.
  unfold handleDownload, handleProcessCSV. rewrite Hfile.
  destruct (columns st) as [ | c cs] eqn:Ec; [contradiction | ].
  destruct (csvText st) as [ | x xs] eqn:Et; [contradiction | ].
  simpl length. simpl Nat.eqb. simpl Js.nonEmpty. simpl orb. simpl negb. cbv iota.
  unfold validateAndCleanCSV. cbv zeta.
  apply blank_nonBlankLines in Hblank. rewrite Hblank.
  repeat split.
Qed.

Lemma handleProcessCSV_blank_text_witness :
  success (handleProcessCSV []
             (mkApp [lit "name"] [] (Some (lit "people.csv")) (lit "  ") [] [] [] 0 false))
  = lit "CSV processed successfully! No invalid rows found."
  /\ error (handleProcessCSV []
              (mkApp [lit "name"] [] (Some (lit "people.csv")) (lit "  ") [] [] [] 0 false)) = []
  /\ processedCSV (handleProcessCSV []
                     (mkApp [lit "name"] [] (Some (lit "people.csv")) (lit "  ") [] [] [] 0 false)) = []
  /\ handleDownload (handleProcessCSV []
                       (mkApp [lit "name"] [] (Some (lit "people.csv")) (lit "  ") [] [] [] 0 false)) = None.
Proof.
  apply (handleProcessCSV_blank_text [] _ (lit "people.csv"));
    [discriminate | reflexivity | discriminate | reflexivity].
Defined.

(** X28: processing a text that is not blank but of which the tokenizer
    keeps no row, with columns and a file in place, ends in the error
    branch with the message of the runtime's [TypeError]; no success is
    shown and the processed text stays what it was. *)
Theorem handleProcessCSV_no_rows (typeErrorMessage : str) (st : AppState) (name : str) :
  columns st <> [] ->
  csvFile st = Some name ->
  blank (csvText st) = false ->
  parseCSV (csvText st) = [] ->
  error (handleProcessCSV typeErrorMessage st) = typeErrorMessage
  /\ success (handleProcessCSV typeErrorMessage st) = []
  /\ processedCSV (handleProcessCSV typeErrorMessage st) = processedCSV st.
Proof.
  intros Hcols Hfile Hblank Hrows.
  assert (validateAndCleanCSV (csvText st) (columns st) = ThrownTypeError) as Hthrow.
  { apply validateAndCleanCSV_TypeError. split; assumption. }
  unfold handleProcessCSV. rewrite Hfile, Hthrow.
  destruct (columns st) as [ | c cs]; [contradiction | ].
  destruct (csvText st) as [ | x xs]; [discriminate Hblank | ].
  repeat split.
Qed.

Lemma handleProcessCSV_no_rows_witness :
  error (handleProcessCSV (lit "TypeError")
           (mkApp [lit "name"] [] (Some (lit "people.csv")) (lit ",") (lit "old") [] [] 0 false)) = lit "TypeError"
  /\ success (handleProcessCSV (lit "TypeError")
                (mkApp [lit "name"] [] (Some (lit "people.csv")) (lit ",") (lit "old") [] [] 0 false)) = []
  /\ processedCSV (handleProcessCSV (lit "TypeError")
                     (mkApp [lit "name"] [] (Some (lit "people.csv")) (lit ",") (lit "old") [] [] 0 false)) = lit "old".
Proof.
  apply (handleProcessCSV_no_rows (lit "TypeError")
           (mkApp [lit "name"] [] (Some (lit "people.csv")) (lit ",") (lit "old") [] [] 0 false)
           (lit "people.csv"));
    [discriminate | reflexivity | reflexivity | reflexivity].
Defined.

(** ** RowValidator on rows without quotes *)

Lemma quoteCount_absent (s : str) : ~ In Ch.quote s -> quoteCount s = 0.
Proof.
  induction s as [ | c r IH]; intros H; [reflexivity | ].
  simpl. destruct (Ascii.eqb c Ch.quote) eqn:E.
  - apply Ascii.eqb_eq in E. subst c. exfalso. apply H. left. reflexivity.
  - apply IH. intros Hin. apply H. right. exact Hin.
Qed.

Lemma charThen_In (c : ascii) (k : str -> bool) (s : str) :
  Re.charThen c k s = true -> In c s.
Proof.
  intros H. apply charThen_elim in H. destruct H as (r & -> & _). left. reflexivity.
Qed.

Lemma starThen_charThen_In (cls : ascii -> bool) (c : ascii) (k : str -> bool) (s : str) :
  Re.starThen cls (Re.charThen c k) s = true -> In c s.
Proof.
  induction s as [ | d r IH]; simpl.
  - discriminate.
  - intros H. apply orb_true_iff in H. destruct H as [H | H].
    + apply andb_true_iff in H. destruct H as [H _]. apply Ascii.eqb_eq in H. left. exact H.
    + apply andb_true_iff in H. destruct H as [_ H]. right. apply IH. exact H.
Qed.

Lemma searchFrom_charThen_In (c : ascii) (k : str -> bool) (s : str) :
  Re.searchFrom (Re.charThen c k) s = true -> In c s.
Proof.
  induction s as [ | d r IH]; simpl.
  - discriminate.
  - intros H. apply orb_true_iff in H. destruct H as [H | H].
    + apply andb_true_iff in H. destruct H as [H _]. apply Ascii.eqb_eq in H. left. exact H.
    + right. apply IH. exact H.
Qed.

(** A field without a double quote passes the malformed-quote sweep. *)
Lemma fieldPassesSweep_unquoted (field : str) :
  ~ In Ch.quote field -> fieldPassesSweep field = true.
Proof.
  intros H.
  assert (~ In Ch.quote (Js.trim field)) as Ht by (intros Hin; apply H, trim_incl, Hin).
  unfold fieldPassesSweep. cbv zeta. rewrite (quoteCount_absent _ Ht). simpl.
  destruct (commaThenQuote (Js.trim field)) eqn:E1.
  - exfalso. apply Ht. unfold commaThenQuote in E1.
    apply charThen_elim in E1. destruct E1 as (r & -> & E1).
    right. eapply starThen_charThen_In. exact E1.
  - destruct (quoteThenComma (Js.trim field)) eqn:E2; [ | reflexivity].
    exfalso. apply Ht. eapply searchFrom_charThen_In. exact E2.
Qed.

Lemma cleanField_incl (field : str) (x : ascii) : In x (cleanField field) -> In x field.
Proof.
  intros H. destruct (cleanField_strippedFrom field) as (a & b & E & _).
  rewrite E. apply in_or_app. right. apply in_or_app. left. exact H.
Qed.

Lemma autoCorrectEmailDomain_no_quote (email : str) :
  ~ In Ch.quote email -> ~ In Ch.quote (autoCorrectEmailDomain email).
Proof.
  intros Hq.
  assert (~ In Ch.quote (Js.trim email)) as Ht by (intros Hin; apply Hq, trim_incl, Hin).
  destruct (autoCorrectEmailDomain_cases email)
    as [H | (l & d & others & base & rest & suffix & Hsplit & Hd & _ & Hsuffix & H)];
    rewrite H; [exact Ht | ].
  intros Hin. apply in_app_or in Hin. destruct Hin as [Hin | Hin].
  - apply Ht. apply (split_incl Ch.at_ (Js.trim email) l); [rewrite Hsplit; left; reflexivity | exact Hin].
  - simpl in Hin. destruct Hin as [Hin | Hin]; [discriminate | ].
    apply in_app_or in Hin. destruct Hin as [Hin | Hin].
    + apply Ht. apply (split_incl Ch.at_ (Js.trim email) d);
        [rewrite Hsplit; right; left; reflexivity | ].
      rewrite Hd. apply in_or_app. left. exact Hin.
    + destruct (corrected_suffix suffix Hsuffix) as [-> | [-> | ->]];
        vm_compute in Hin; intuition discriminate.
Qed.

Lemma Forall_setAt (P : str -> Prop) (i : nat) (v : str) (arr : list str) :
  P v -> Forall P arr -> Forall P (setAt i v arr).
Proof.
  intros Hv. revert i. induction arr as [ | x r IH]; intros i H; [constructor | ].
  inversion H; subst. destruct i; simpl; constructor; auto.
Qed.

Lemma sweep_unquoted_row (row : list str) (e p : Z) :
  Forall (fun field => ~ In Ch.quote field) row ->
  forallb fieldPassesSweep (phoneStep (rowBeforePhone row e) p) = true.
Proof.
  intros H.
  assert (Forall (fun field => ~ In Ch.quote field) (map cleanField row)) as Hclean.
  { rewrite Forall_forall in *. intros f Hf. apply in_map_iff in Hf.
    destruct Hf as (g & <- & Hg). intros Hin. apply (H g Hg). apply cleanField_incl. exact Hin. }
  assert (Forall (fun field => ~ In Ch.quote field) (rowBeforePhone row e)) as Hemail.
  { unfold rowBeforePhone. cbv zeta.
    destruct (inRange e (map cleanField row)); [ | exact Hclean].
    apply Forall_setAt; [ | exact Hclean].
    apply autoCorrectEmailDomain_no_quote.
    destruct (nth_in_or_default (Z.to_nat e) (map cleanField row) []) as [Hin | ->];
      [ | intros []].
    rewrite Forall_forall in Hclean. apply Hclean. exact Hin. }
  assert (Forall (fun field => ~ In Ch.quote field) (phoneStep (rowBeforePhone row e) p))
    as Hphone.
  { unfold phoneStep. cbv zeta.
    destruct (inRange p (rowBeforePhone row e)); [ | exact Hemail].
    destruct (_ && _); [ | exact Hemail].
    apply Forall_setAt; [intros [] | exact Hemail]. }
  apply forallb_forall. intros f Hf. apply fieldPassesSweep_unquoted.
  rewrite Forall_forall in Hphone. apply Hphone. exact Hf.
Qed.

(** X29: a row whose fields hold no double quote is rejected for two
    reasons only: it has not the expected number of fields, or its email
    field, cleaned and normalised, is not a valid email.  Its phone field
    and the malformed-quote sweep never reject it. *)
Theorem validateAndCleanRow_unquoted_rejection
    (row : list str) (width : nat) (e p : Z) :
  Forall (fun field => ~ In Ch.quote field) row ->
  (validateAndCleanRow row width e p = None
   <-> length row <> width
       \/ (inRange e row = true
           /\ isValidEmail
                (autoCorrectEmailDomain (cleanField (nth (Z.to_nat e) row []))) = false)).
Proof.
  intros H. rewrite validateAndCleanRow_stages.
  rewrite (sweep_unquoted_row row e p H).
  rewrite (inRange_length e (map cleanField row) row (length_map _ _)).
  rewrite nth_map_cleanField.
  destruct (Nat.eqb_spec (length row) width) as [Hw | Hw]; simpl negb; cbv iota.
  - destruct (inRange e row); simpl andb.
    + destruct (isValidEmail _); simpl negb; cbv iota.
      * split; [discriminate | intros [Hc | [_ Hc]]; [contradiction | discriminate]].
      * split; [intros _; right; split; reflexivity | reflexivity].
    + split; [discriminate | intros [Hc | [Hc _]]; [contradiction | discriminate]].
  - split; [intros _; left; exact Hw | reflexivity].
Qed.

Lemma validateAndCleanRow_unquoted_rejection_witness :
  validateAndCleanRow [lit "Bob"; lit "not-an-email"] 2 1 (-1) = None
  <-> length [lit "Bob"; lit "not-an-email"] <> 2
      \/ (inRange 1 [lit "Bob"; lit "not-an-email"] = true
          /\ isValidEmail
               (autoCorrectEmailDomain
                  (cleanField (nth (Z.to_nat 1) [lit "Bob"; lit "not-an-email"] []))) = false).
Proof.
  apply validateAndCleanRow_unquoted_rejection.
  repeat constructor; intros H; vm_compute in H; intuition discriminate.
Defined.
